(** * High-score server of elevate2024 ([srv.go]): a shallow embedding

    The server keeps an in-memory list of scores, hands out HMAC-signed
    start tokens, checks submissions against them and streams the ranked,
    truncated list.  Go values are embedded as follows:

    - [int], [int64] : [Z], wrap-around written out where the source can
      overflow;
    - [[]byte] : [list Z], every element in [0, 256);
    - [string] : [string] (a Go string is a byte string, and so is a
      Rocq one);
    - [float64] : [spec_float] at precision 53 and emax 1024; a value
      decoded from JSON is finite, and the order of [cmp.Compare] is
      modelled on all of them, NaN included;
    - a handler : a function of the clock reading, the decoded request
      and the server, to the reply and the next server.

    The packages of the standard library the handlers call are modelled
    too: crypto/sha256 and crypto/hmac (checked on published vectors),
    encoding/base64, crypto/subtle, encoding/binary, cmp, slices and
    unicode/utf8. *)

From Stdlib Require Import ZArith String Ascii List Bool Lia.
From Stdlib Require Import SpecFloat Permutation.
Import ListNotations.

Local Open Scope Z_scope.

(** ** Byte strings *)

Definition byte_ok (b : Z) : Prop := 0 <= b < 256.

Definition bytes_ok (l : list Z) : Prop := Forall byte_ok l.

Definition byte_of_ascii (c : ascii) : Z := Z.of_N (N_of_ascii c).

(** [[]byte(s)] *)
Fixpoint bytes_of_string (s : string) : list Z :=
  match s with
  | EmptyString => []
  | String c r => byte_of_ascii c :: bytes_of_string r
  end.

(** ** crypto/sha256 and crypto/hmac (FIPS 180-4, RFC 2104) *)

Module SHA256.

Definition mask32 : Z := 0xFFFFFFFF.
Definition add32 (x y : Z) : Z := Z.land (x + y) mask32.
Definition not32 (x : Z) : Z := Z.lxor x mask32.
Definition rotr (n x : Z) : Z :=
  Z.lor (Z.shiftr x n) (Z.land (Z.shiftl x (32 - n)) mask32).

Definition Ch (x y z : Z) : Z := Z.lxor (Z.land x y) (Z.land (not32 x) z).
Definition Maj (x y z : Z) : Z :=
  Z.lxor (Z.lxor (Z.land x y) (Z.land x z)) (Z.land y z).
Definition Sigma0 (x : Z) : Z := Z.lxor (Z.lxor (rotr 2 x) (rotr 13 x)) (rotr 22 x).
Definition Sigma1 (x : Z) : Z := Z.lxor (Z.lxor (rotr 6 x) (rotr 11 x)) (rotr 25 x).
Definition sigma0 (x : Z) : Z := Z.lxor (Z.lxor (rotr 7 x) (rotr 18 x)) (Z.shiftr x 3).
Definition sigma1 (x : Z) : Z := Z.lxor (Z.lxor (rotr 17 x) (rotr 19 x)) (Z.shiftr x 10).

(** The round constants and the initial hash value are the first 32
    bits of the fractional parts of the cube roots of the first 64
    primes and of the square roots of the first 8. *)
Definition is_prime (n : nat) : bool :=
  forallb (fun d => negb (n mod d =? 0)%nat) (seq 2 (n - 2)).

Definition primes (count : nat) : list Z :=
  map Z.of_nat (firstn count (filter is_prime (seq 2 310))).

(** The integer cube root, one bit at a time from bit [bits - 1] down. *)
Fixpoint cbrt_bits (bits : nat) (n r : Z) : Z :=
  match bits with
  | O => r
  | S b =>
      let c := r + 2 ^ Z.of_nat b in
      cbrt_bits b n (if c * c * c <=? n then c else r)
  end.

Definition cbrt (n : Z) : Z := cbrt_bits 40 n 0.

Definition K : list Z :=
  Eval vm_compute in map (fun p => Z.land (cbrt (p * 2 ^ 96)) mask32) (primes 64).

Definition H0 : list Z :=
  Eval vm_compute in map (fun p => Z.land (Z.sqrt (p * 2 ^ 64)) mask32) (primes 8).

(** Big-endian words of a block. *)
Fixpoint words_of_bytes (l : list Z) : list Z :=
  match l with
  | a :: b :: c :: d :: r =>
      Z.lor (Z.lor (Z.lor (Z.shiftl a 24) (Z.shiftl b 16)) (Z.shiftl c 8)) d
      :: words_of_bytes r
  | _ => []
  end.

Definition bytes_of_word (w : Z) : list Z :=
  [ Z.land (Z.shiftr w 24) 255; Z.land (Z.shiftr w 16) 255;
    Z.land (Z.shiftr w 8) 255; Z.land w 255 ].

(** The message schedule, most recent word first: [rw] holds
    [W(t-1); W(t-2); ...]. *)
Fixpoint schedule (n : nat) (rw : list Z) : list Z :=
  match n with
  | O => rw
  | S n' =>
      let w := add32 (add32 (sigma1 (nth 1 rw 0)) (nth 6 rw 0))
                     (add32 (sigma0 (nth 14 rw 0)) (nth 15 rw 0)) in
      schedule n' (w :: rw)
  end.

Definition round (st : list Z) (kw : Z * Z) : list Z :=
  match st with
  | [a; b; c; d; e; f; g; h] =>
      let t1 := add32 (add32 (add32 h (Sigma1 e)) (add32 (Ch e f g) (fst kw))) (snd kw) in
      let t2 := add32 (Sigma0 a) (Maj a b c) in
      [add32 t1 t2; a; b; c; add32 d t1; e; f; g]
  | _ => st
  end.

Definition compress (h : list Z) (block : list Z) : list Z :=
  let w := rev (schedule 48 (rev (words_of_bytes block))) in
  map (fun p => add32 (fst p) (snd p))
      (combine h (fold_left round (combine K w) h)).

Fixpoint blocks (n : nat) (h : list Z) (l : list Z) : list Z :=
  match n with
  | O => h
  | S n' => blocks n' (compress h (firstn 64 l)) (skipn 64 l)
  end.

Definition length_bytes (bits : Z) : list Z :=
  bytes_of_word (Z.land (Z.shiftr bits 32) mask32) ++ bytes_of_word (Z.land bits mask32).

Definition pad (msg : list Z) : list Z :=
  let len := Z.of_nat (length msg) in
  let zeros := Z.to_nat ((55 - len) mod 64) in
  msg ++ 0x80 :: repeat 0 zeros ++ length_bytes (8 * len).

Definition sum (msg : list Z) : list Z :=
  let p := pad msg in
  flat_map bytes_of_word (blocks (length p / 64)%nat H0 p).

End SHA256.

Module HMAC.

Definition blockSize : nat := 64.

Definition xor_with (c : Z) (l : list Z) : list Z := map (fun b => Z.lxor b c) l.

Definition key_block (key : list Z) : list Z :=
  let k := if (blockSize <? length key)%nat then SHA256.sum key else key in
  k ++ repeat 0 (blockSize - length k)%nat.

(** [hmac.New(sha256.New, key)], [Write(msg)], [Sum(nil)]. *)
Definition sum (key msg : list Z) : list Z :=
  let kb := key_block key in
  SHA256.sum (xor_with 0x5c kb ++ SHA256.sum (xor_with 0x36 kb ++ msg)).

End HMAC.

(** Test vectors are written in hexadecimal. *)
Definition hex_digit (c : ascii) : Z :=
  let n := byte_of_ascii c in
  if n <? 58 then n - 48 else n - 87.

Fixpoint bytes_of_hex (s : string) : list Z :=
  match s with
  | String a (String b r) => 16 * hex_digit a + hex_digit b :: bytes_of_hex r
  | _ => []
  end.

(** ** encoding/base64, [StdEncoding]: standard alphabet, [=] padding,
    non-strict trailing bits, CR and LF skipped by the decoder *)

Module Base64.

Definition encodeStd : string :=
  "ABCDEFGHIJKLMNOPQRSTUVWXYZabcdefghijklmnopqrstuvwxyz0123456789+/".

Definition padChar : ascii := "="%char.

(** [enc.encode[i]] *)
Definition encode (i : Z) : ascii :=
  nth (Z.to_nat i) (list_ascii_of_string encodeStd) "A"%char.

Fixpoint index_from (c : ascii) (l : list ascii) (i : Z) : Z :=
  match l with
  | [] => 0xFF
  | x :: r => if Ascii.eqb x c then i else index_from c r (i + 1)
  end.

(** [enc.decodeMap[c]]: the index of [c] in the alphabet, [0xFF] for a
    byte outside it. *)
Definition decodeMap (c : ascii) : Z :=
  index_from c (list_ascii_of_string encodeStd) 0.

Definition quantum3 (b0 b1 b2 : Z) : Z :=
  Z.lor (Z.lor (Z.shiftl b0 16) (Z.shiftl b1 8)) b2.

Definition sextet (val k : Z) : ascii := encode (Z.land (Z.shiftr val k) 0x3F).

(** [EncodeToString]: three bytes to four characters, the last one or two
    bytes padded with [=]. *)
Fixpoint EncodeToString (src : list Z) : string :=
  match src with
  | [] => EmptyString
  | [b0] =>
      let val := Z.shiftl b0 16 in
      String (sextet val 18) (String (sextet val 12)
        (String padChar (String padChar EmptyString)))
  | [b0; b1] =>
      let val := Z.lor (Z.shiftl b0 16) (Z.shiftl b1 8) in
      String (sextet val 18) (String (sextet val 12) (String (sextet val 6)
        (String padChar EmptyString)))
  | b0 :: b1 :: b2 :: r =>
      let val := quantum3 b0 b1 b2 in
      String (sextet val 18) (String (sextet val 12) (String (sextet val 6)
        (String (sextet val 0) (EncodeToString r))))
  end.

Definition is_newline (c : ascii) : bool :=
  Ascii.eqb c "010"%char || Ascii.eqb c "013"%char.

Fixpoint skip_newlines (s : string) : string :=
  match s with
  | String c r => if is_newline c then skip_newlines r else s
  | EmptyString => s
  end.

Definition byte (v : Z) : Z := Z.land v 255.

Definition quantum4 (d0 d1 d2 d3 : Z) : Z :=
  Z.lor (Z.lor (Z.lor (Z.shiftl d0 18) (Z.shiftl d1 12)) (Z.shiftl d2 6)) d3.

(** [Decode], written as [decodeQuantum] is: [dbuf] holds the sextets of
    the quantum read so far ([j] is its length).  [None] is a
    [CorruptInputError]. *)
Fixpoint decode (dbuf : list Z) (src : string) : option (list Z) :=
  match src with
  | EmptyString =>
      match dbuf with
      | [] => Some []
      | _ => None
      end
  | String c r =>
      let out := decodeMap c in
      if negb (out =? 0xFF) then
        match dbuf with
        | [d0; d1; d2] =>
            let val := quantum4 d0 d1 d2 out in
            match decode [] r with
            | Some rest =>
                Some (byte (Z.shiftr val 16) :: byte (Z.shiftr val 8) :: byte val :: rest)
            | None => None
            end
        | _ => decode (dbuf ++ [out]) r
        end
      else if is_newline c then decode dbuf r
      else if negb (Ascii.eqb c padChar) then None
      else
        match dbuf with
        | [d0; d1] =>
            match skip_newlines r with
            | String c' r' =>
                if Ascii.eqb c' padChar then
                  match skip_newlines r' with
                  | EmptyString =>
                      Some [byte (Z.shiftr (quantum4 d0 d1 0 0) 16)]
                  | _ => None
                  end
                else None
            | EmptyString => None
            end
        | [d0; d1; d2] =>
            match skip_newlines r with
            | EmptyString =>
                let val := quantum4 d0 d1 d2 0 in
                Some [byte (Z.shiftr val 16); byte (Z.shiftr val 8)]
            | _ => None
            end
        | _ => None
        end
  end.

Definition DecodeString (s : string) : option (list Z) := decode [] s.

End Base64.

(** ** crypto/subtle and [hmac.Equal] *)

Definition ConstantTimeByteEq (x y : Z) : Z := if x =? y then 1 else 0.

Definition ConstantTimeCompare (x y : list Z) : Z :=
  if negb (length x =? length y)%nat then 0
  else
    let v := fold_left (fun v p => Z.lor v (Z.lxor (fst p) (snd p))) (combine x y) 0 in
    ConstantTimeByteEq v 0.

Definition hmac_Equal (mac1 mac2 : list Z) : bool :=
  ConstantTimeCompare mac1 mac2 =? 1.

(** ** Machine integers and encoding/binary *)

Definition int64_ok (x : Z) : Prop := - 2 ^ 63 <= x < 2 ^ 63.

(** Two's-complement wrap-around of an [int64] result. *)
Definition wrap64 (x : Z) : Z := (x + 2 ^ 63) mod 2 ^ 64 - 2 ^ 63.

(** The conversion [uint64(x)] of an [int64]. *)
Definition uint64 (x : Z) : Z := x mod 2 ^ 64.

(** [binary.LittleEndian.PutUint64] into a fresh 8-byte slice. *)
Definition PutUint64 (v : Z) : list Z :=
  map (fun i => Z.land (Z.shiftr v (8 * i)) 255) [0; 1; 2; 3; 4; 5; 6; 7].

(** ** [float64] *)

Definition float64 : Set := spec_float.

Definition prec64 : Z := 53.
Definition emax64 : Z := 1024.

(** The conversion [float64(x)] of an integer: round to nearest, ties to
    even. *)
Definition float64_of_int (x : Z) : float64 := binary_normalize prec64 emax64 x 0 false.

(** The float [m * 2^e], rounded. *)
Definition float64_of_scaled (m e : Z) : float64 := binary_normalize prec64 emax64 m e false.

Definition float_lt (x y : float64) : bool := SFltb x y.

Definition isNaN (x : float64) : bool := negb (SFeqb x x).

(** ** Package cmp *)

(** [cmp.Compare] at [int]. *)
Definition Compare_int (x y : Z) : Z :=
  if x <? y then -1 else if y <? x then 1 else 0.

(** [cmp.Compare] at [float64]: a NaN is less than any non-NaN and equal
    to a NaN. *)
Definition Compare_float64 (x y : float64) : Z :=
  if isNaN x then (if isNaN y then 0 else -1)
  else if isNaN y then 1
  else if float_lt x y then -1
  else if float_lt y x then 1
  else 0.

(** [cmp.Or] of two values: the first that is not zero. *)
Definition Or (a b : Z) : Z := if a =? 0 then b else a.

(** ** Package slices *)

Section Slices.

Context {A : Type}.
Variable cmp : A -> A -> Z.

(** One pass of the inner loop of [insertionSortCmpFunc]: [x = data[i]]
    moves left while [cmp(data[j], data[j-1]) < 0].  [rprefix] is
    [data[a:i]] read from right to left. *)
Fixpoint insertBack (x : A) (rprefix : list A) : list A :=
  match rprefix with
  | [] => [x]
  | p :: ps => if cmp x p <? 0 then p :: insertBack x ps else x :: rprefix
  end.

(** [slices.SortStableFunc]: the result is the stable insertion sort of
    the slice.  The library sorts blocks of 20 in exactly this way and
    merges them stably; under a strict weak ordering a slice has one
    stable sort ([SortStableFunc_unique] below), so the result is the
    library's for every length. *)
Definition SortStableFunc (data : list A) : list A :=
  rev (fold_left (fun rprefix x => insertBack x rprefix) data []).

(** [slices.IsSortedFunc] *)
Fixpoint IsSortedFunc (data : list A) : bool :=
  match data with
  | [] => true
  | x :: r =>
      match r with
      | [] => true
      | y :: _ => negb (cmp y x <? 0) && IsSortedFunc r
      end
  end.

End Slices.

(** ** unicode/utf8: counting the characters of a string *)

Module utf8.

(** Size and accepted range of the second byte for a lead byte, as the
    tables [first] and [acceptRanges] give them; [None] is the entry [xx]
    of an invalid lead byte. *)
Definition lead (c : Z) : option (nat * Z * Z) :=
  if c <? 0xC2 then None
  else if c <? 0xE0 then Some (2%nat, 0x80, 0xBF)
  else if c =? 0xE0 then Some (3%nat, 0xA0, 0xBF)
  else if c =? 0xED then Some (3%nat, 0x80, 0x9F)
  else if c <? 0xF0 then Some (3%nat, 0x80, 0xBF)
  else if c =? 0xF0 then Some (4%nat, 0x90, 0xBF)
  else if c <? 0xF4 then Some (4%nat, 0x80, 0xBF)
  else if c =? 0xF4 then Some (4%nat, 0x80, 0x8F)
  else None.

Definition cont (c : Z) : bool := (0x80 <=? c) && (c <=? 0xBF).

(** [RuneCount]: a well-formed sequence counts once, and so does every
    byte that starts none. *)
Fixpoint RuneCount (p : list Z) : nat :=
  match p with
  | [] => O
  | c :: r1 =>
      S (if c <? 0x80 then RuneCount r1
         else
           match lead c with
           | None => RuneCount r1
           | Some (size, lo, hi) =>
               match r1 with
               | c1 :: r2 =>
                   if negb ((lo <=? c1) && (c1 <=? hi)) then RuneCount r1
                   else if (size =? 2)%nat then RuneCount r2
                   else
                     match r2 with
                     | c2 :: r3 =>
                         if negb (cont c2) then RuneCount r1
                         else if (size =? 3)%nat then RuneCount r3
                         else
                           match r3 with
                           | c3 :: r4 =>
                               if negb (cont c3) then RuneCount r1 else RuneCount r4
                           | [] => RuneCount r1
                           end
                     | [] => RuneCount r1
                     end
               | [] => RuneCount r1
               end
           end)
  end.

Definition RuneCountInString (s : string) : nat := RuneCount (bytes_of_string s).

End utf8.

(** ** The data of [srv.go] *)

Definition NUM_SCORES : Z := 20.

Record Token := mkToken {
  Start : Z;
  Hmac : string
}.

Record Score := mkScore {
  PlayerName : string;
  Elapsed : float64;
  RemainingHealth : Z;
  Token_ : Token
}.

(** The zero value [Token{}]. *)
Definition zeroToken : Token := mkToken 0 EmptyString.

Definition scoreCmp (a b : Score) : Z :=
  Or (Compare_int (RemainingHealth a) (RemainingHealth b))
     (- Compare_float64 (Elapsed a) (Elapsed b)).

(** The mutex is not a field of the model: every handler below changes
    [scores] in one step taken under it. *)
Record HighScoreServer := mkServer {
  scores : list Score;
  hmacKey : list Z;
  adminPassword : string
}.

Definition set_scores (s : HighScoreServer) (l : list Score) : HighScoreServer :=
  mkServer l (hmacKey s) (adminPassword s).

(** ** Responses *)

Definition StatusOK : Z := 200.
Definition StatusCreated : Z := 201.
Definition StatusBadRequest : Z := 400.
Definition StatusForbidden : Z := 403.

Inductive LogLine :=
| OddElapsed (claimed wallClock : float64)
| ClearedScores.

Record Reply := mkReply {
  status : Z;
  logged : list LogLine;
  server : HighScoreServer
}.

(** ** [truncateAndGetScores] *)

(** [None] is the run-time panic of the slice expression [s.scores[:t]]
    for a negative [t]; [t] never exceeds the length, hence never the
    capacity. *)
Definition truncateAndGetScores (n : Z) (s : HighScoreServer)
  : option (list Score * HighScoreServer) :=
  let sorted := SortStableFunc scoreCmp (scores s) in
  let len := Z.of_nat (length sorted) in
  let t := if len <? n then len else n in
  if t <? 0 then None
  else
    let kept := firstn (Z.to_nat t) sorted in
    Some (kept, set_scores s kept).

(** ** [addScore] *)

(** What [json.NewDecoder(r.Body).Decode(&newScore)] leaves. *)
Inductive Decoded :=
| DecodeError (err : string)
| DecodeOk (newScore : Score).

Definition expectedMac (key : list Z) (start : Z) : list Z :=
  HMAC.sum key (PutUint64 (uint64 start)).

Definition wallClockElapsed (t start : Z) : float64 :=
  float64_of_int (wrap64 (t - start)).

Definition len (s : string) : Z := Z.of_nat (String.length s).

(** [now] is the value [time.Now().Unix()] has when the handler reads
    the clock. *)
Definition addScore (now : Z) (body : Decoded) (s : HighScoreServer) : Reply :=
  match body with
  | DecodeError _ => mkReply StatusBadRequest [] s
  | DecodeOk newScore =>
      let result := expectedMac (hmacKey s) (Start (Token_ newScore)) in
      match Base64.DecodeString (Hmac (Token_ newScore)) with
      | None => mkReply StatusBadRequest [] s
      | Some signature =>
          if negb (hmac_Equal signature result) then mkReply StatusBadRequest [] s
          else if RemainingHealth newScore <? 0 then mkReply StatusBadRequest [] s
          else if (len (PlayerName newScore) <? 1) || (3 <? len (PlayerName newScore))
          then mkReply StatusBadRequest [] s
          else
            let t := now in
            let wall := wallClockElapsed t (Start (Token_ newScore)) in
            if float_lt wall (Elapsed newScore) then
              mkReply StatusBadRequest [OddElapsed (Elapsed newScore) wall] s
            else
              let stored :=
                mkScore (PlayerName newScore) (Elapsed newScore)
                        (RemainingHealth newScore) zeroToken in
              mkReply StatusCreated [] (set_scores s (scores s ++ [stored]))
      end
  end.

(** ** [getToken] *)

Definition getToken (now : Z) (s : HighScoreServer) : Z * Token :=
  let t := now in
  let result := HMAC.sum (hmacKey s) (PutUint64 (uint64 t)) in
  let token := Base64.EncodeToString result in
  (StatusCreated, mkToken t token).

(** ** [resetScore] *)

(** What [r.ParseForm()] and [r.FormValue("pw")] give. *)
Inductive Form :=
| FormError
| FormValue (pw : string).

Definition resetScore (form : Form) (s : HighScoreServer) : Reply :=
  match form with
  | FormError => mkReply StatusBadRequest [] s
  | FormValue pw =>
      if String.eqb pw (adminPassword s) then
        mkReply StatusOK [ClearedScores] (set_scores s [])
      else mkReply StatusForbidden [] s
  end.

(** ** One tick of [stream] *)

Definition streamTick (s : HighScoreServer) : option (list Score * HighScoreServer) :=
  truncateAndGetScores NUM_SCORES s.

(** ** The server as a transition system *)

Inductive Request :=
| PostStart (now : Z)
| PostRecord (now : Z) (body : Decoded)
| PostReset (form : Form)
| EventsTick.

(** The server [main] builds: no scores, the key and the password it
    was started with. *)
Definition initialServer (key : list Z) (pw : string) : HighScoreServer :=
  mkServer [] key pw.

(** [None]: the handler panicked. *)
Definition step (s : HighScoreServer) (r : Request) : option HighScoreServer :=
  match r with
  | PostStart now => Some s
  | PostRecord now body => Some (server (addScore now body s))
  | PostReset form => Some (server (resetScore form s))
  | EventsTick =>
      match streamTick s with
      | Some (_, s') => Some s'
      | None => None
      end
  end.

Fixpoint run (s : HighScoreServer) (rs : list Request) : option HighScoreServer :=
  match rs with
  | [] => Some s
  | r :: rest =>
      match step s r with
      | Some s' => run s' rest
      | None => None
      end
  end.

(** A store holds no token material when every score in it carries the
    zero token. *)
Definition tokens_stripped (l : list Score) : Prop :=
  Forall (fun sc => Token_ sc = zeroToken) l.

(** ** The verification of a token, as a predicate of its own *)

(** The two checks [addScore] makes on the token, lines 77 to 93. *)
Definition Verify (key : list Z) (tok : Token) : bool :=
  match Base64.DecodeString (Hmac tok) with
  | None => false
  | Some signature => hmac_Equal signature (expectedMac key (Start tok))
  end.

(** The ranking the specification words: [a] is ranked no lower than
    [b] when it has more health, or as much and no more time. *)
Definition ranks_no_lower (a b : Score) : bool :=
  (RemainingHealth b <? RemainingHealth a)
  || ((RemainingHealth a =? RemainingHealth b) && SFleb (Elapsed a) (Elapsed b)).

Fixpoint ranked_descending (l : list Score) : bool :=
  match l with
  | [] => true
  | x :: r =>
      match r with
      | [] => true
      | y :: _ => ranks_no_lower x y && ranked_descending r
      end
  end.

(** ** Predicates the statements below use *)

Definition sextet_ok (d : Z) : Prop := 0 <= d < 64.

(** What [slices.SortStableFunc] asks of its [cmp]: a strict weak
    ordering, here as antisymmetry of the sign and transitivity of
    [<= 0]. *)
Record Comparator {A : Type} (cmp : A -> A -> Z) : Prop := {
  cmp_antisym : forall x y, cmp y x = - cmp x y;
  cmp_trans : forall x y z, cmp x y <= 0 -> cmp y z <= 0 -> cmp x z <= 0
}.

(** The slice whose elements are [rprefix], last one first, is sorted. *)
Definition sorted_prefix {A : Type} (cmp : A -> A -> Z) (rprefix : list A) : Prop :=
  IsSortedFunc cmp (rev rprefix) = true.

(** A float's place in the order of [cmp.Compare]: its class, then
    exponent and mantissa, both counted downwards for a negative number. *)
Definition float_class (x : float64) : Z :=
  match x with
  | S754_nan => -3
  | S754_infinity true => -2
  | S754_finite true _ _ => -1
  | S754_zero _ => 0
  | S754_finite false _ _ => 1
  | S754_infinity false => 2
  end.

Definition float_exp (x : float64) : Z :=
  match x with
  | S754_finite true _ e => - e
  | S754_finite false _ e => e
  | _ => 0
  end.

Definition float_man (x : float64) : Z :=
  match x with
  | S754_finite true m _ => Z.neg m
  | S754_finite false m _ => Z.pos m
  | _ => 0
  end.

(** The ways a submission fails validation, in the order [addScore]
    meets them. *)
Definition fails_validation (now : Z) (key : list Z) (body : Decoded) : Prop :=
  match body with
  | DecodeError _ => True
  | DecodeOk sc =>
      Base64.DecodeString (Hmac (Token_ sc)) = None
      \/ (exists signature,
             Base64.DecodeString (Hmac (Token_ sc)) = Some signature
             /\ signature <> expectedMac key (Start (Token_ sc)))
      \/ RemainingHealth sc < 0
      \/ len (PlayerName sc) < 1
      \/ 3 < len (PlayerName sc)
      \/ float_lt (wallClockElapsed now (Start (Token_ sc))) (Elapsed sc) = true
  end.

(** The score [addScore] stores for an accepted submission. *)
Definition stripped (sc : Score) : Score :=
  mkScore (PlayerName sc) (Elapsed sc) (RemainingHealth sc) zeroToken.

(** ** A server and some submissions to run the model on *)

Definition demoKey : list Z := bytes_of_string "0123456789abcdef".

Definition demoServer : HighScoreServer := initialServer demoKey "changeme".

Definition demoStart : Z := 1700000000.

Definition demoToken : Token := snd (getToken demoStart demoServer).

Definition BBB : Score := mkScore "BBB" (float64_of_int 10) 80 demoToken.

Definition CCC : Score := mkScore "CCC" (float64_of_int 5) 80 demoToken.

(** Two characters, four bytes: U+00E9 twice. *)
Definition twoAccents : string :=
  String "195" (String "169" (String "195" (String "169" EmptyString))).

Definition half : float64 := float64_of_scaled 1 (-1).

Definition accentScore : Score := mkScore twoAccents (float64_of_int 0) 50 demoToken.

Definition halfScore : Score := mkScore "AAA" half 50 demoToken.

Definition garbledScore : Score :=
  mkScore "AAA" (float64_of_int 0) 50 (mkToken demoStart "not base64!").

Definition lowScore : Score := mkScore "LOW" (float64_of_int 1) 10 zeroToken.

Definition highScore : Score := mkScore "TOP" (float64_of_int 1) 90 zeroToken.

(** ** [stream] *)

(** [json.Marshal] refuses a [float64] that is NaN or infinite, and
    nothing else of a [Score]. *)
Definition marshals (sc : Score) : bool :=
  match Elapsed sc with
  | S754_nan | S754_infinity _ => false
  | _ => true
  end.

(** What [select] meets at a turn of the loop: the context is done, or
    the ticker fires and the write of the frame then succeeds or not. *)
Inductive StreamEvent :=
| CtxDone
| TickerFires (write_ok : bool).

(** The loop of [stream] over the events it meets, from the frames
    written so far: the frames written and the server it leaves.  The
    list ending is the loop still waiting.  [None] is a panic. *)
Fixpoint streamLoop (events : list StreamEvent) (s : HighScoreServer)
         (frames : list (list Score)) : option (list (list Score) * HighScoreServer) :=
  match events with
  | [] => Some (frames, s)
  | CtxDone :: _ => Some (frames, s)
  | TickerFires write_ok :: rest =>
      match truncateAndGetScores NUM_SCORES s with
      | None => None
      | Some (scores, s') =>
          if negb (forallb marshals scores) then Some (frames, s')
          else if negb write_ok then Some (frames, s')
          else streamLoop rest s' (frames ++ [scores])
      end
  end.

(** [flusher] tells whether the response writer is an [http.Flusher];
    the status is the one [http.Error] sets when it is not. *)
Definition stream (flusher : bool) (events : list StreamEvent) (s : HighScoreServer)
  : option (option Z * list (list Score) * HighScoreServer) :=
  if negb flusher then Some (Some StatusBadRequest, [], s)
  else
    match streamLoop events s [] with
    | Some (frames, s') => Some (None, frames, s')
    | None => None
    end.

(** ** More predicates *)

(** A float that is not below zero. *)
Definition not_negative (x : float64) : Prop :=
  match x with
  | S754_infinity true | S754_finite true _ _ => False
  | _ => True
  end.

(** The constraints [addScore] puts on what it stores. *)
Definition well_formed (sc : Score) : Prop :=
  0 <= RemainingHealth sc /\ 1 <= len (PlayerName sc) <= 3.

Definition ascii_only (s : string) : Prop :=
  Forall (fun c => c < 0x80) (bytes_of_string s).

(** * Facts about the libraries *)

(** ** The digests, on published test vectors *)

Example sha256_abc :
  SHA256.sum (bytes_of_string "abc")
  = bytes_of_hex "ba7816bf8f01cfea414140de5dae2223b00361a396177a9cb410ff61f20015ad".
Proof. vm_compute. reflexivity. Qed.

Example sha256_empty :
  SHA256.sum []
  = bytes_of_hex "e3b0c44298fc1c149afbf4c8996fb92427ae41e4649b934ca495991b7852b855".
Proof. vm_compute. reflexivity. Qed.

Example sha256_two_blocks :
  SHA256.sum (bytes_of_string "abcdbcdecdefdefgefghfghighijhijkijkljklmklmnlmnomnopnopq")
  = bytes_of_hex "248d6a61d20638b8e5c026930c3e6039a33ce45964ff2167f6ecedd419db06c1".
Proof. vm_compute. reflexivity. Qed.

(** RFC 4231, test case 2. *)
Example hmac_sha256_rfc4231_2 :
  HMAC.sum (bytes_of_string "Jefe") (bytes_of_string "what do ya want for nothing?")
  = bytes_of_hex "5bdcc146bf60754e6a042426089575c75a003f089d2739839dec58b964ec3843".
Proof. vm_compute. reflexivity. Qed.

Section Bits.

Lemma land_shiftl_low (a b k : Z) :
  0 <= k -> 0 <= b < 2 ^ k -> Z.land (Z.shiftl a k) b = 0.
Proof.
  intros Hk Hb. apply Z.bits_inj'. intros n Hn.
  rewrite Z.land_spec, Z.bits_0.
  destruct (Z.lt_ge_cases n k) as [Hlt | Hge].
  - rewrite Z.shiftl_spec_low by assumption. reflexivity.
  - rewrite <- (Z.mod_small b (2 ^ k)) by assumption.
    rewrite Z.mod_pow2_bits_high by lia. apply andb_false_r.
Qed.

(** An [|] of two values with no bit in common is their sum. *)
Lemma lor_disjoint (k a b : Z) :
  0 <= k -> a mod 2 ^ k = 0 -> 0 <= b < 2 ^ k -> Z.lor a b = a + b.
Proof.
  intros Hk Ha Hb.
  assert (Hs : a = Z.shiftl (a / 2 ^ k) k).
  { rewrite Z.shiftl_mul_pow2 by assumption.
    rewrite Z.mul_comm. apply Z.div_exact; [ | assumption].
    apply Z.pow_nonzero; lia. }
  rewrite Hs at 1.
  rewrite <- Z.lxor_lor by (apply land_shiftl_low; assumption).
  rewrite <- Z.add_nocarry_lxor by (apply land_shiftl_low; assumption).
  rewrite <- Hs. reflexivity.
Qed.

Lemma land_63 (x : Z) : Z.land x 0x3F = x mod 64.
Proof. change 0x3F with (Z.ones 6). rewrite Z.land_ones by lia. reflexivity. Qed.

Lemma land_255 (x : Z) : Z.land x 255 = x mod 256.
Proof. change 255 with (Z.ones 8). rewrite Z.land_ones by lia. reflexivity. Qed.

End Bits.

Ltac divmod := Z.div_mod_to_equations; lia.

Ltac split_all := repeat match goal with |- _ /\ _ => split end.

Section Base64Facts.

Import Base64.

Lemma quantum3_arith (b0 b1 b2 : Z) :
  byte_ok b0 -> byte_ok b1 -> byte_ok b2 ->
  quantum3 b0 b1 b2 = b0 * 65536 + b1 * 256 + b2.
Proof.
  unfold byte_ok, quantum3. intros H0 H1 H2.
  rewrite !Z.shiftl_mul_pow2 by lia.
  rewrite (lor_disjoint 16 (b0 * 2 ^ 16)) by (try divmod; lia).
  rewrite (lor_disjoint 8) by (try divmod; lia).
  lia.
Qed.

Lemma quantum4_arith (d0 d1 d2 d3 : Z) :
  sextet_ok d0 -> sextet_ok d1 -> sextet_ok d2 -> sextet_ok d3 ->
  quantum4 d0 d1 d2 d3 = d0 * 262144 + d1 * 4096 + d2 * 64 + d3.
Proof.
  unfold sextet_ok, quantum4. intros H0 H1 H2 H3.
  rewrite !Z.shiftl_mul_pow2 by lia.
  rewrite (lor_disjoint 18 (d0 * 2 ^ 18)) by (try divmod; lia).
  rewrite (lor_disjoint 12 (d0 * 2 ^ 18 + d1 * 2 ^ 12)) by (try divmod; lia).
  rewrite (lor_disjoint 6) by (try divmod; lia).
  lia.
Qed.

Lemma decodeMap_encode (d : Z) : sextet_ok d -> decodeMap (encode d) = d.
Proof.
  intros [Hlo Hhi].
  rewrite <- (Z2Nat.id d Hlo).
  assert (Hn : (Z.to_nat d < 64)%nat) by lia.
  generalize dependent (Z.to_nat d). intros n Hn.
  do 64 (destruct n as [ | n]; [reflexivity | ]).
  lia.
Qed.

Lemma sextet_of_val (val k : Z) : sextet_ok (Z.land (Z.shiftr val k) 0x3F).
Proof. unfold sextet_ok. rewrite land_63. apply Z.mod_pos_bound. lia. Qed.

Lemma decode_cons (dbuf : list Z) (c : ascii) (r : string) :
  decode dbuf (String c r)
  = let out := decodeMap c in
    if negb (out =? 0xFF) then
      match dbuf with
      | [d0; d1; d2] =>
          let val := quantum4 d0 d1 d2 out in
          match decode [] r with
          | Some rest =>
              Some (byte (Z.shiftr val 16) :: byte (Z.shiftr val 8) :: byte val :: rest)
          | None => None
          end
      | _ => decode (dbuf ++ [out]) r
      end
    else if is_newline c then decode dbuf r
    else if negb (Ascii.eqb c padChar) then None
    else
      match dbuf with
      | [d0; d1] =>
          match skip_newlines r with
          | String c' r' =>
              if Ascii.eqb c' padChar then
                match skip_newlines r' with
                | EmptyString => Some [byte (Z.shiftr (quantum4 d0 d1 0 0) 16)]
                | _ => None
                end
              else None
          | EmptyString => None
          end
      | [d0; d1; d2] =>
          match skip_newlines r with
          | EmptyString =>
              let val := quantum4 d0 d1 d2 0 in
              Some [byte (Z.shiftr val 16); byte (Z.shiftr val 8)]
          | _ => None
          end
      | _ => None
      end.
Proof. reflexivity. Qed.

(** Reading the character of a sextet. *)
Lemma decode_sextet (dbuf : list Z) (d : Z) (r : string) :
  sextet_ok d ->
  decode dbuf (String (encode d) r)
  = match dbuf with
    | [d0; d1; d2] =>
        let val := quantum4 d0 d1 d2 d in
        match decode [] r with
        | Some rest =>
            Some (byte (Z.shiftr val 16) :: byte (Z.shiftr val 8) :: byte val :: rest)
        | None => None
        end
    | _ => decode (dbuf ++ [d]) r
    end.
Proof.
  intros Hd. rewrite decode_cons. cbv zeta.
  rewrite (decodeMap_encode d Hd).
  destruct (Z.eqb_spec d 0xFF) as [E | _]; [unfold sextet_ok in Hd; lia | ].
  reflexivity.
Qed.

(** The bytes of a quantum come back from its four sextets. *)
Lemma bytes_of_sextets (b0 b1 b2 : Z) :
  byte_ok b0 -> byte_ok b1 -> byte_ok b2 ->
  let val := quantum3 b0 b1 b2 in
  let val' := quantum4 (Z.land (Z.shiftr val 18) 0x3F) (Z.land (Z.shiftr val 12) 0x3F)
                       (Z.land (Z.shiftr val 6) 0x3F) (Z.land (Z.shiftr val 0) 0x3F) in
  byte (Z.shiftr val' 16) = b0 /\ byte (Z.shiftr val' 8) = b1 /\ byte val' = b2.
Proof.
  intros H0 H1 H2 val val'.
  assert (E : val' = val).
  { unfold val'. rewrite quantum4_arith by apply sextet_of_val.
    rewrite !land_63, !Z.shiftr_div_pow2 by lia.
    assert (0 <= val < 2 ^ 24).
    { unfold val. rewrite quantum3_arith by assumption. unfold byte_ok in *. lia. }
    divmod. }
  rewrite E. unfold val, byte. rewrite quantum3_arith by assumption.
  rewrite !land_255, !Z.shiftr_div_pow2 by lia.
  unfold byte_ok in *. split_all; divmod.
Qed.

Lemma byte_of_sextets_1 (b0 : Z) :
  byte_ok b0 ->
  let val := Z.shiftl b0 16 in
  byte (Z.shiftr (quantum4 (Z.land (Z.shiftr val 18) 0x3F)
                           (Z.land (Z.shiftr val 12) 0x3F) 0 0) 16) = b0.
Proof.
  intros H0 val.
  rewrite quantum4_arith by (try apply sextet_of_val; unfold sextet_ok; lia).
  unfold val, byte.
  rewrite !land_63, land_255, !Z.shiftr_div_pow2, Z.shiftl_mul_pow2 by lia.
  unfold byte_ok in H0. divmod.
Qed.

Lemma bytes_of_sextets_2 (b0 b1 : Z) :
  byte_ok b0 -> byte_ok b1 ->
  let val := Z.lor (Z.shiftl b0 16) (Z.shiftl b1 8) in
  let val' := quantum4 (Z.land (Z.shiftr val 18) 0x3F) (Z.land (Z.shiftr val 12) 0x3F)
                       (Z.land (Z.shiftr val 6) 0x3F) 0 in
  byte (Z.shiftr val' 16) = b0 /\ byte (Z.shiftr val' 8) = b1.
Proof.
  intros H0 H1 val val'.
  assert (E : val = b0 * 65536 + b1 * 256).
  { unfold val, byte_ok in *. rewrite !Z.shiftl_mul_pow2 by lia.
    rewrite (lor_disjoint 16) by (try divmod; lia). lia. }
  unfold val'.
  rewrite quantum4_arith by (try apply sextet_of_val; unfold sextet_ok; lia).
  unfold byte. rewrite E.
  rewrite !land_63, !land_255, !Z.shiftr_div_pow2 by lia.
  unfold byte_ok in *. split; divmod.
Qed.

Lemma decode_encode_upto (n : nat) (src : list Z) :
  (length src <= n)%nat -> bytes_ok src ->
  decode [] (EncodeToString src) = Some src.
Proof.
  revert src. induction n as [ | n IH]; intros src Hlen Hok.
  - destruct src; [reflexivity | simpl in Hlen; lia].
  - destruct src as [ | b0 [ | b1 [ | b2 r]]].
    + reflexivity.
    + apply Forall_inv in Hok.
      cbn [EncodeToString]. cbv zeta. unfold sextet.
      rewrite !decode_sextet by apply sextet_of_val. cbn [app].
      rewrite decode_cons.
      change (decodeMap padChar) with 0xFF.
      cbn -[quantum4 Z.shiftr Z.land Z.shiftl byte].
      f_equal. f_equal. apply (byte_of_sextets_1 b0 Hok).
    + pose proof (Forall_inv Hok) as H0.
      pose proof (Forall_inv (Forall_inv_tail Hok)) as H1.
      cbn [EncodeToString]. cbv zeta. unfold sextet.
      rewrite !decode_sextet by apply sextet_of_val. cbn [app].
      rewrite decode_cons.
      change (decodeMap padChar) with 0xFF.
      cbn -[quantum4 Z.shiftr Z.land Z.shiftl byte].
      destruct (bytes_of_sextets_2 b0 b1 H0 H1) as [E0 E1].
      f_equal. f_equal; [exact E0 | f_equal; exact E1].
    + pose proof (Forall_inv Hok) as H0.
      pose proof (Forall_inv (Forall_inv_tail Hok)) as H1.
      pose proof (Forall_inv (Forall_inv_tail (Forall_inv_tail Hok))) as H2.
      pose proof (Forall_inv_tail (Forall_inv_tail (Forall_inv_tail Hok))) as Hr.
      cbn [EncodeToString]. cbv zeta. unfold sextet.
      rewrite !decode_sextet by apply sextet_of_val. cbn [app]. cbv zeta.
      rewrite IH by (simpl in Hlen; try lia; exact Hr).
      destruct (bytes_of_sextets b0 b1 b2 H0 H1 H2) as (E0 & E1 & E2).
      f_equal. f_equal; [exact E0 | ]. f_equal; [exact E1 | ]. f_equal. exact E2.
Qed.

(** [DecodeString] undoes [EncodeToString]. *)
Lemma DecodeString_EncodeToString (src : list Z) :
  bytes_ok src -> DecodeString (EncodeToString src) = Some src.
Proof. intros Hok. exact (decode_encode_upto (length src) src (le_n _) Hok). Qed.

End Base64Facts.

(** ** [hmac.Equal] decides equality *)

Section SubtleFacts.

Let acc (v : Z) (p : Z * Z) : Z := Z.lor v (Z.lxor (fst p) (snd p)).

Lemma fold_lor_zero (x y : list Z) (v : Z) :
  length x = length y ->
  (fold_left acc (combine x y) v = 0 <-> v = 0 /\ x = y).
Proof.
  revert y v. induction x as [ | a x IH]; intros [ | b y] v Hlen;
    simpl in Hlen; try discriminate.
  - simpl. intuition.
  - injection Hlen as Hlen. simpl. rewrite (IH y _ Hlen). unfold acc. simpl.
    rewrite Z.lor_eq_0_iff. split.
    + intros [[Hv Hx] E]. apply Z.lxor_eq in Hx. subst. auto.
    + intros [Hv E]. injection E as -> ->. rewrite Z.lxor_nilpotent. auto.
Qed.

Lemma hmac_Equal_true (mac1 mac2 : list Z) :
  hmac_Equal mac1 mac2 = true <-> mac1 = mac2.
Proof.
  unfold hmac_Equal, ConstantTimeCompare, ConstantTimeByteEq.
  destruct (Nat.eqb_spec (length mac1) (length mac2)) as [Hlen | Hlen]; simpl.
  - pose proof (fold_lor_zero mac1 mac2 0 Hlen) as H. unfold acc in H.
    destruct (Z.eqb_spec
      (fold_left (fun v p => Z.lor v (Z.lxor (fst p) (snd p))) (combine mac1 mac2) 0) 0)
      as [E | E].
    + split; [intros _; apply H; exact E | reflexivity].
    + split; [discriminate | ]. intros ->. exfalso. apply E. apply H. auto.
  - split; [discriminate | ]. intros ->. contradiction.
Qed.

Lemma hmac_Equal_refl (mac : list Z) : hmac_Equal mac mac = true.
Proof. apply hmac_Equal_true. reflexivity. Qed.

Lemma hmac_Equal_false (mac1 mac2 : list Z) :
  mac1 <> mac2 -> hmac_Equal mac1 mac2 = false.
Proof.
  intros Hne. destruct (hmac_Equal mac1 mac2) eqn:E; [ | reflexivity].
  apply hmac_Equal_true in E. contradiction.
Qed.

End SubtleFacts.

(** ** The digest is a byte string *)

Lemma land_255_byte (x : Z) : byte_ok (Z.land x 255).
Proof. unfold byte_ok. rewrite land_255. apply Z.mod_pos_bound. lia. Qed.

Lemma SHA256_sum_bytes (msg : list Z) : bytes_ok (SHA256.sum msg).
Proof.
  unfold SHA256.sum, bytes_ok. apply Forall_forall. intros b Hb.
  apply in_flat_map in Hb. destruct Hb as (w & _ & Hb).
  unfold SHA256.bytes_of_word in Hb. cbn [In] in Hb.
  decompose [or] Hb; subst; try apply land_255_byte. contradiction.
Qed.

Lemma HMAC_sum_bytes (key msg : list Z) : bytes_ok (HMAC.sum key msg).
Proof. apply SHA256_sum_bytes. Qed.

Lemma PutUint64_length (v : Z) : length (PutUint64 v) = 8%nat.
Proof. reflexivity. Qed.

Lemma PutUint64_bytes (v : Z) : bytes_ok (PutUint64 v).
Proof.
  unfold PutUint64, bytes_ok. apply Forall_map, Forall_forall.
  intros i _. apply land_255_byte.
Qed.

(** No overflow: the difference of two clock readings a token's age
    apart is the integer difference. *)
Lemma wrap64_small (x : Z) : int64_ok x -> wrap64 x = x.
Proof. unfold int64_ok, wrap64. intros H. rewrite Z.mod_small; lia. Qed.

(** ** [Verify] and [addScore] *)

Section Handlers.

Variable s : HighScoreServer.
Variable now : Z.

Lemma Verify_true (tok : Token) :
  Verify (hmacKey s) tok = true
  <-> Base64.DecodeString (Hmac tok) = Some (expectedMac (hmacKey s) (Start tok)).
Proof.
  unfold Verify. destruct (Base64.DecodeString (Hmac tok)) as [sig | ].
  - rewrite hmac_Equal_true. split; [intros -> | intros [= ->]]; reflexivity.
  - split; discriminate.
Qed.

Lemma addScore_undecodable (err : string) :
  addScore now (DecodeError err) s = mkReply StatusBadRequest [] s.
Proof. reflexivity. Qed.

Lemma addScore_unverified (sc : Score) :
  Verify (hmacKey s) (Token_ sc) = false ->
  addScore now (DecodeOk sc) s = mkReply StatusBadRequest [] s.
Proof.
  unfold Verify, addScore.
  destruct (Base64.DecodeString (Hmac (Token_ sc))) as [sig | ]; [ | reflexivity].
  intros ->. reflexivity.
Qed.

(** Past the signature, [addScore] is the three remaining checks. *)
Lemma addScore_verified (sc : Score) :
  Verify (hmacKey s) (Token_ sc) = true ->
  addScore now (DecodeOk sc) s
  = if RemainingHealth sc <? 0 then mkReply StatusBadRequest [] s
    else if (len (PlayerName sc) <? 1) || (3 <? len (PlayerName sc))
    then mkReply StatusBadRequest [] s
    else
      let wall := wallClockElapsed now (Start (Token_ sc)) in
      if float_lt wall (Elapsed sc) then
        mkReply StatusBadRequest [OddElapsed (Elapsed sc) wall] s
      else
        mkReply StatusCreated []
          (set_scores s (scores s ++
             [mkScore (PlayerName sc) (Elapsed sc) (RemainingHealth sc) zeroToken])).
Proof.
  unfold Verify, addScore.
  destruct (Base64.DecodeString (Hmac (Token_ sc))) as [sig | ]; [ | discriminate].
  intros ->. reflexivity.
Qed.

(** Every reply of [addScore] is a 400 that leaves the server as it was,
    or a 201. *)
Lemma addScore_reply (body : Decoded) :
  (status (addScore now body s) = StatusBadRequest /\ server (addScore now body s) = s)
  \/ status (addScore now body s) = StatusCreated.
Proof.
  destruct body as [err | sc]; [left; split; reflexivity | ].
  destruct (Verify (hmacKey s) (Token_ sc)) eqn:V.
  - rewrite (addScore_verified sc V). cbv zeta.
    repeat match goal with
           | |- context [if ?b then _ else _] => destruct b
           end; simpl; auto.
  - rewrite (addScore_unverified sc V). left; split; reflexivity.
Qed.

End Handlers.

(** ** Comparison functions *)

Section Comparators.

Context {A : Type}.

Lemma cmp_refl (c : A -> A -> Z) : Comparator c -> forall x, c x x = 0.
Proof. intros H x. pose proof (cmp_antisym c H x x). lia. Qed.

Lemma cmp_lt_le_trans (c : A -> A -> Z) :
  Comparator c -> forall x y z, c x y < 0 -> c y z <= 0 -> c x z < 0.
Proof.
  intros H x y z Hxy Hyz.
  destruct (Z.lt_ge_cases (c x z) 0) as [ | Hge]; [assumption | exfalso].
  pose proof (cmp_antisym c H x z). pose proof (cmp_antisym c H x y).
  assert (c y x <= 0) by (apply (cmp_trans c H y z x); lia). lia.
Qed.

Lemma cmp_le_lt_trans (c : A -> A -> Z) :
  Comparator c -> forall x y z, c x y <= 0 -> c y z < 0 -> c x z < 0.
Proof.
  intros H x y z Hxy Hyz.
  destruct (Z.lt_ge_cases (c x z) 0) as [ | Hge]; [assumption | exfalso].
  pose proof (cmp_antisym c H x z). pose proof (cmp_antisym c H y z).
  assert (c z y <= 0) by (apply (cmp_trans c H z x y); lia). lia.
Qed.

Lemma cmp_eq_trans (c : A -> A -> Z) :
  Comparator c -> forall x y z, c x y = 0 -> c y z = 0 -> c x z = 0.
Proof.
  intros H x y z Hxy Hyz.
  pose proof (cmp_antisym c H x y). pose proof (cmp_antisym c H y z).
  pose proof (cmp_antisym c H x z).
  assert (c x z <= 0) by (apply (cmp_trans c H x y z); lia).
  assert (c z x <= 0) by (apply (cmp_trans c H z y x); lia).
  lia.
Qed.

(** [cmp.Or] of two comparisons is the lexicographic comparison. *)
Lemma Comparator_Or (c1 c2 : A -> A -> Z) :
  Comparator c1 -> Comparator c2 -> Comparator (fun x y => Or (c1 x y) (c2 x y)).
Proof.
  intros H1 H2. split.
  - intros x y. unfold Or.
    rewrite (cmp_antisym c1 H1 x y), (cmp_antisym c2 H2 x y).
    destruct (Z.eqb_spec (c1 x y) 0), (Z.eqb_spec (- c1 x y) 0); lia.
  - intros x y z. unfold Or.
    destruct (Z.eqb_spec (c1 x y) 0) as [Exy | Nxy];
      destruct (Z.eqb_spec (c1 y z) 0) as [Eyz | Nyz]; intros Hxy Hyz.
    + rewrite (cmp_eq_trans c1 H1 x y z Exy Eyz). simpl.
      apply (cmp_trans c2 H2 x y z); assumption.
    + assert (c1 x z < 0) by (apply (cmp_le_lt_trans c1 H1 x y z); lia).
      destruct (Z.eqb_spec (c1 x z) 0); lia.
    + assert (c1 x z < 0) by (apply (cmp_lt_le_trans c1 H1 x y z); lia).
      destruct (Z.eqb_spec (c1 x z) 0); lia.
    + assert (c1 x z < 0) by (apply (cmp_lt_le_trans c1 H1 x y z); lia).
      destruct (Z.eqb_spec (c1 x z) 0); lia.
Qed.

Lemma Comparator_opp (c : A -> A -> Z) :
  Comparator c -> Comparator (fun x y => - c x y).
Proof.
  intros H. split.
  - intros x y. rewrite (cmp_antisym c H x y). reflexivity.
  - intros x y z Hxy Hyz.
    pose proof (cmp_antisym c H x y). pose proof (cmp_antisym c H y z).
    pose proof (cmp_antisym c H x z).
    assert (c z x <= 0) by (apply (cmp_trans c H z y x); lia). lia.
Qed.

Lemma Comparator_on {B : Type} (f : B -> A) (c : A -> A -> Z) :
  Comparator c -> Comparator (fun x y => c (f x) (f y)).
Proof.
  intros H. split.
  - intros x y. apply (cmp_antisym c H).
  - intros x y z. apply (cmp_trans c H).
Qed.

Lemma Comparator_ext (c c' : A -> A -> Z) :
  (forall x y, c' x y = c x y) -> Comparator c -> Comparator c'.
Proof.
  intros E H. split.
  - intros x y. rewrite !E. apply (cmp_antisym c H).
  - intros x y z. rewrite !E. apply (cmp_trans c H).
Qed.

End Comparators.

Lemma Comparator_int : Comparator Compare_int.
Proof.
  split; intros; unfold Compare_int in *;
    repeat match goal with
           | H : context [Z.ltb ?a ?b] |- _ => destruct (Z.ltb_spec a b)
           | |- context [Z.ltb ?a ?b] => destruct (Z.ltb_spec a b)
           end; lia.
Qed.

(** *** The order of [float64] under [cmp.Compare] *)

Lemma Compare_float64_lex (x y : float64) :
  Compare_float64 x y
  = Or (Compare_int (float_class x) (float_class y))
       (Or (Compare_int (float_exp x) (float_exp y))
           (Compare_int (float_man x) (float_man y))).
Proof.
  unfold Compare_float64, isNaN, float_lt, SFltb, SFeqb.
  destruct x as [[ | ] | [ | ] | | [ | ] m1 e1], y as [[ | ] | [ | ] | | [ | ] m2 e2];
    try reflexivity;
    cbn [SFcompare float_class float_exp float_man];
    change (Pos.compare_cont Eq) with Pos.compare;
    rewrite ?Z.compare_refl, ?Pos.compare_refl; cbn [negb CompOpp];
    repeat match goal with
           | |- context [Z.compare ?a ?b] => destruct (Z.compare_spec a b)
           | |- context [Pos.compare ?a ?b] => destruct (Pos.compare_spec a b)
           end;
    cbn [negb CompOpp]; unfold Or, Compare_int;
    repeat match goal with
           | |- context [Z.ltb ?a ?b] => destruct (Z.ltb_spec a b)
           end;
    cbn [Z.eqb Z.opp]; lia.
Qed.

Lemma Comparator_float64 : Comparator Compare_float64.
Proof.
  apply (Comparator_ext
           (fun x y => Or (Compare_int (float_class x) (float_class y))
                          (Or (Compare_int (float_exp x) (float_exp y))
                              (Compare_int (float_man x) (float_man y))))).
  - apply Compare_float64_lex.
  - apply (Comparator_Or (fun x y => Compare_int (float_class x) (float_class y))).
    + apply (Comparator_on float_class), Comparator_int.
    + apply (Comparator_Or (fun x y => Compare_int (float_exp x) (float_exp y))).
      * apply (Comparator_on float_exp), Comparator_int.
      * apply (Comparator_on float_man), Comparator_int.
Qed.

Lemma Comparator_scoreCmp : Comparator scoreCmp.
Proof.
  unfold scoreCmp.
  apply (Comparator_Or (fun a b => Compare_int (RemainingHealth a) (RemainingHealth b))
                       (fun a b => - Compare_float64 (Elapsed a) (Elapsed b))).
  - apply (Comparator_on RemainingHealth), Comparator_int.
  - apply (Comparator_on Elapsed (fun x y => - Compare_float64 x y)).
    apply Comparator_opp, Comparator_float64.
Qed.

(** ** [slices.SortStableFunc] *)

Section SortFacts.

Context {A : Type}.
Variable cmp : A -> A -> Z.

Lemma insertBack_perm (x : A) (l : list A) : Permutation (insertBack cmp x l) (x :: l).
Proof.
  induction l as [ | p ps IH]; simpl; [reflexivity | ].
  destruct (cmp x p <? 0); [ | reflexivity].
  rewrite IH. apply perm_swap.
Qed.

Lemma fold_insertBack_perm (l acc : list A) :
  Permutation (fold_left (fun rprefix x => insertBack cmp x rprefix) l acc) (l ++ acc).
Proof.
  revert acc. induction l as [ | x l IH]; intros acc; simpl; [reflexivity | ].
  rewrite IH, insertBack_perm. symmetry. apply Permutation_middle.
Qed.

(** The sorted slice holds the elements it held. *)
Lemma SortStableFunc_perm (l : list A) : Permutation (SortStableFunc cmp l) l.
Proof.
  unfold SortStableFunc. rewrite <- Permutation_rev, fold_insertBack_perm.
  rewrite app_nil_r. reflexivity.
Qed.

Lemma SortStableFunc_length (l : list A) : length (SortStableFunc cmp l) = length l.
Proof. apply Permutation_length, SortStableFunc_perm. Qed.

(** [IsSortedFunc] at the end of a slice. *)
Lemma IsSortedFunc_snoc (l : list A) (p x : A) :
  IsSortedFunc cmp ((l ++ [p]) ++ [x])
  = negb (cmp x p <? 0) && IsSortedFunc cmp (l ++ [p]).
Proof.
  induction l as [ | a l IH].
  - simpl. rewrite !andb_true_r. reflexivity.
  - change (((a :: l) ++ [p]) ++ [x]) with (a :: ((l ++ [p]) ++ [x])).
    change ((a :: l) ++ [p]) with (a :: (l ++ [p])).
    cbn [IsSortedFunc]. rewrite IH.
    destruct l as [ | b l]; simpl.
    + rewrite !andb_true_r. apply andb_comm.
    + rewrite !andb_assoc. f_equal. apply andb_comm.
Qed.

Lemma sorted_prefix_cons (x p : A) (ps : list A) :
  sorted_prefix cmp (x :: p :: ps) <-> ~ cmp x p < 0 /\ sorted_prefix cmp (p :: ps).
Proof.
  unfold sorted_prefix. cbn [rev]. rewrite IsSortedFunc_snoc, andb_true_iff.
  destruct (Z.ltb_spec (cmp x p) 0); simpl; intuition (try discriminate; lia).
Qed.

Lemma sorted_prefix_tail (x : A) (ps : list A) :
  sorted_prefix cmp (x :: ps) -> sorted_prefix cmp ps.
Proof.
  destruct ps as [ | p ps]; [reflexivity | ].
  intros H. apply sorted_prefix_cons in H. apply H.
Qed.

Section Sorted.

Hypothesis cmp_ok : Comparator cmp.

Lemma insertBack_sorted (x : A) (l : list A) :
  sorted_prefix cmp l -> sorted_prefix cmp (insertBack cmp x l).
Proof.
  induction l as [ | p ps IH]; intros Hs.
  - reflexivity.
  - simpl. destruct (Z.ltb_spec (cmp x p) 0) as [Hlt | Hge].
    + specialize (IH (sorted_prefix_tail _ _ Hs)).
      destruct ps as [ | q qs].
      * simpl. apply sorted_prefix_cons. split; [ | reflexivity].
        rewrite (cmp_antisym cmp cmp_ok x p). lia.
      * apply sorted_prefix_cons in Hs. destruct Hs as [Hpq Hs].
        simpl in *. destruct (Z.ltb_spec (cmp x q) 0).
        -- apply sorted_prefix_cons. split; assumption.
        -- apply sorted_prefix_cons. split; [ | assumption].
           rewrite (cmp_antisym cmp cmp_ok x p). lia.
    + apply sorted_prefix_cons. split; [lia | assumption].
Qed.

Lemma fold_insertBack_sorted (l acc : list A) :
  sorted_prefix cmp acc -> sorted_prefix cmp (fold_left (fun rprefix x => insertBack cmp x rprefix) l acc).
Proof.
  revert acc. induction l as [ | x l IH]; intros acc Hs; simpl; [assumption | ].
  apply IH, insertBack_sorted, Hs.
Qed.

(** The result is sorted. *)
Lemma SortStableFunc_sorted (l : list A) :
  IsSortedFunc cmp (SortStableFunc cmp l) = true.
Proof. apply (fold_insertBack_sorted l []). reflexivity. Qed.

(** Elements that compare equal keep their order: the result, read for
    the elements equal to any [x], is the slice read for them. *)
Lemma insertBack_stable (x a : A) (l : list A) :
  filter (fun y => cmp x y =? 0) (insertBack cmp a l)
  = filter (fun y => cmp x y =? 0) (a :: l).
Proof.
  induction l as [ | p ps IH]; [reflexivity | ].
  cbn [insertBack]. destruct (Z.ltb_spec (cmp a p) 0) as [Hlt | Hge]; [ | reflexivity].
  cbn [filter] in *. rewrite IH.
  destruct (Z.eqb_spec (cmp x p) 0) as [Ep | Np];
    destruct (Z.eqb_spec (cmp x a) 0) as [Ea | Na]; try reflexivity.
  exfalso.
  assert (cmp a x = 0) by (rewrite (cmp_antisym cmp cmp_ok x a); lia).
  pose proof (cmp_eq_trans cmp cmp_ok a x p). lia.
Qed.

Lemma fold_insertBack_stable (x : A) (l acc : list A) :
  filter (fun y => cmp x y =? 0) (fold_left (fun rprefix x => insertBack cmp x rprefix) l acc)
  = filter (fun y => cmp x y =? 0) (rev l ++ acc).
Proof.
  revert acc. induction l as [ | a l IH]; intros acc; [reflexivity | ].
  cbn [fold_left rev]. rewrite IH, <- app_assoc, !filter_app.
  f_equal. rewrite insertBack_stable.
  change (a :: acc) with ([a] ++ acc). apply filter_app.
Qed.

Lemma SortStableFunc_stable (x : A) (l : list A) :
  filter (fun y => cmp x y =? 0) (SortStableFunc cmp l)
  = filter (fun y => cmp x y =? 0) l.
Proof.
  unfold SortStableFunc. rewrite filter_rev, fold_insertBack_stable.
  rewrite app_nil_r, filter_rev, rev_involutive. reflexivity.
Qed.

End Sorted.

(** A sorted slice is left as it is: no element moves. *)
Lemma fold_insertBack_id (l acc : list A) :
  IsSortedFunc cmp (rev acc ++ l) = true ->
  fold_left (fun rprefix x => insertBack cmp x rprefix) l acc = rev l ++ acc.
Proof.
  revert acc. induction l as [ | x l IH]; intros acc Hs; [reflexivity | ].
  cbn [fold_left rev].
  assert (E : insertBack cmp x acc = x :: acc).
  { destruct acc as [ | p ps]; [reflexivity | ].
    cbn [insertBack]. cbn [rev] in Hs.
    assert (Hpx : IsSortedFunc cmp ((rev ps ++ [p]) ++ [x]) = true).
    { clear IH. revert Hs. generalize (rev ps ++ [p]). intros pre.
      change (x :: l) with ([x] ++ l). rewrite app_assoc.
      generalize (pre ++ [x]). clear. intros m.
      induction m as [ | a m IHm]; [reflexivity | ].
      destruct m as [ | b m]; [reflexivity | ].
      cbn [app IsSortedFunc] in *. rewrite andb_true_iff.
      intros [-> H]. simpl. apply IHm, H. }
    rewrite IsSortedFunc_snoc, andb_true_iff in Hpx.
    destruct (cmp x p <? 0); [ | reflexivity]. destruct Hpx; discriminate. }
  rewrite E, IH.
  - rewrite <- app_assoc. reflexivity.
  - cbn [rev]. rewrite <- app_assoc. exact Hs.
Qed.

Lemma SortStableFunc_id (l : list A) :
  IsSortedFunc cmp l = true -> SortStableFunc cmp l = l.
Proof.
  intros Hs. unfold SortStableFunc. rewrite (fold_insertBack_id l []) by exact Hs.
  rewrite app_nil_r. apply rev_involutive.
Qed.

(** A prefix of a sorted slice is sorted. *)
Lemma IsSortedFunc_firstn (n : nat) (l : list A) :
  IsSortedFunc cmp l = true -> IsSortedFunc cmp (firstn n l) = true.
Proof.
  revert l. induction n as [ | n IH]; intros l Hs; [reflexivity | ].
  destruct l as [ | a l]; [reflexivity | ].
  cbn [firstn]. specialize (IH l).
  destruct l as [ | b l]; [destruct n; reflexivity | ].
  cbn [IsSortedFunc] in Hs. apply andb_true_iff in Hs. destruct Hs as [Hab Hs].
  specialize (IH Hs). destruct n as [ | n]; [reflexivity | ].
  cbn [firstn IsSortedFunc] in *. rewrite Hab. exact IH.
Qed.

End SortFacts.

(** *** The stable sort of a slice is unique *)

Section StableUnique.

Context {A : Type}.
Variable cmp : A -> A -> Z.
Hypothesis cmp_ok : Comparator cmp.

Lemma IsSortedFunc_tail (a : A) (l : list A) :
  IsSortedFunc cmp (a :: l) = true -> IsSortedFunc cmp l = true.
Proof.
  destruct l as [ | b l]; [reflexivity | ].
  cbn [IsSortedFunc]. intros H. apply andb_true_iff in H. apply H.
Qed.

Lemma IsSortedFunc_head_le (a b : A) (l : list A) :
  IsSortedFunc cmp (a :: l) = true -> In b l -> cmp a b <= 0.
Proof.
  revert a. induction l as [ | c l IH]; intros a Hs Hb; [contradiction | ].
  assert (Hac : cmp a c <= 0).
  { cbn [IsSortedFunc] in Hs. apply andb_true_iff in Hs. destruct Hs as [Hs _].
    destruct (Z.ltb_spec (cmp c a) 0); [discriminate | ].
    pose proof (cmp_antisym cmp cmp_ok c a). lia. }
  destruct Hb as [<- | Hb]; [exact Hac | ].
  apply (cmp_trans cmp cmp_ok a c b Hac).
  apply IH; [apply (IsSortedFunc_tail a), Hs | exact Hb].
Qed.

Lemma filter_head_In (f : A -> bool) (a : A) (r l : list A) :
  filter f l = a :: r -> In a l.
Proof.
  intros H. assert (Ha : In a (filter f l)) by (rewrite H; left; reflexivity).
  apply filter_In in Ha. apply Ha.
Qed.

(** Two sorted slices that read alike for the elements equal to any
    [x] are the same slice. *)
Lemma stable_sorted_unique (l1 l2 : list A) :
  IsSortedFunc cmp l1 = true -> IsSortedFunc cmp l2 = true ->
  (forall x, filter (fun y => cmp x y =? 0) l1 = filter (fun y => cmp x y =? 0) l2) ->
  l1 = l2.
Proof.
  revert l2. induction l1 as [ | a l1 IH]; intros l2 H1 H2 H.
  - destruct l2 as [ | b l2]; [reflexivity | ].
    specialize (H b). cbn [filter] in H.
    rewrite (cmp_refl cmp cmp_ok b) in H. discriminate.
  - destruct l2 as [ | b l2].
    { specialize (H a). cbn [filter] in H.
      rewrite (cmp_refl cmp cmp_ok a) in H. discriminate. }
    assert (E : a = b).
    { pose proof (H a) as Ha. cbn [filter] in Ha.
      rewrite (cmp_refl cmp cmp_ok a) in Ha. cbn [Z.eqb] in Ha.
      destruct (Z.eqb_spec (cmp a b) 0) as [Eab | Nab]; [congruence | ].
      exfalso. symmetry in Ha. apply filter_head_In in Ha.
      pose proof (IsSortedFunc_head_le b a l2 H2 Ha) as Hba.
      pose proof (H b) as Hb. cbn [filter] in Hb.
      rewrite (cmp_refl cmp cmp_ok b) in Hb. cbn [Z.eqb] in Hb.
      pose proof (cmp_antisym cmp cmp_ok a b) as Hanti.
      destruct (Z.eqb_spec (cmp b a) 0) as [Eba | Nba]; [lia | ].
      apply filter_head_In in Hb.
      pose proof (IsSortedFunc_head_le a b l1 H1 Hb). lia. }
    subst b. f_equal.
    apply IH; [apply (IsSortedFunc_tail a), H1 | apply (IsSortedFunc_tail a), H2 | ].
    intros x. specialize (H x). cbn [filter] in H.
    destruct (cmp x a =? 0); [congruence | exact H].
Qed.

(** Whatever sorts stably returns what [SortStableFunc] returns. *)
Lemma SortStableFunc_unique (l sorted : list A) :
  IsSortedFunc cmp sorted = true ->
  (forall x, filter (fun y => cmp x y =? 0) sorted = filter (fun y => cmp x y =? 0) l) ->
  sorted = SortStableFunc cmp l.
Proof.
  intros Hs Hst. apply stable_sorted_unique.
  - exact Hs.
  - apply SortStableFunc_sorted, cmp_ok.
  - intros x. rewrite Hst. symmetry. apply SortStableFunc_stable, cmp_ok.
Qed.

End StableUnique.

(** ** [float64] comparisons *)

Lemma SFcompare_antisym (x y : float64) :
  SFcompare y x = option_map CompOpp (SFcompare x y).
Proof.
  destruct x as [[ | ] | [ | ] | | [ | ] m1 e1], y as [[ | ] | [ | ] | | [ | ] m2 e2];
    try reflexivity; cbn [SFcompare option_map];
    change (Pos.compare_cont Eq) with Pos.compare;
    rewrite (Z.compare_antisym e1 e2), (Pos.compare_antisym m1 m2);
    destruct (e1 ?= e2), (m1 ?= m2)%positive; reflexivity.
Qed.


Lemma wallClockElapsed_same_second (t : Z) : wallClockElapsed t t = S754_zero false.
Proof. unfold wallClockElapsed. rewrite Z.sub_diag. reflexivity. Qed.

(** ** Sorted slices *)

Section StrongSort.

Context {A : Type}.
Variable cmp : A -> A -> Z.
Hypothesis cmp_ok : Comparator cmp.

(** In a sorted slice no element compares above a later one. *)
Lemma IsSortedFunc_pairs (l : list A) :
  IsSortedFunc cmp l = true -> ForallOrdPairs (fun x y => cmp x y <= 0) l.
Proof.
  induction l as [ | a l IH]; intros Hs; [constructor | ].
  assert (Hl : IsSortedFunc cmp l = true).
  { destruct l as [ | b l]; [reflexivity | ].
    cbn [IsSortedFunc] in Hs. apply andb_true_iff in Hs. apply Hs. }
  specialize (IH Hl). constructor; [ | exact IH].
  destruct l as [ | b l]; [constructor | ].
  cbn [IsSortedFunc] in Hs. apply andb_true_iff in Hs. destruct Hs as [Hab _].
  assert (Hle : cmp a b <= 0).
  { destruct (Z.ltb_spec (cmp b a) 0); [discriminate | ].
    pose proof (cmp_antisym cmp cmp_ok b a). lia. }
  constructor; [exact Hle | ].
  inversion IH as [ | ? ? Hb _]; subst.
  apply Forall_forall. intros y Hy.
  rewrite Forall_forall in Hb.
  apply (cmp_trans cmp cmp_ok a b y Hle (Hb y Hy)).
Qed.

End StrongSort.

(** ** Counting characters *)

Lemma bytes_of_string_length (s : string) :
  length (bytes_of_string s) = String.length s.
Proof. induction s as [ | c s IH]; simpl; [reflexivity | rewrite IH; reflexivity]. Qed.

Lemma RuneCount_le_upto (n : nat) (p : list Z) :
  (length p <= n)%nat -> (utf8.RuneCount p <= length p)%nat.
Proof.
  revert p. induction n as [ | n IH]; intros p Hn.
  - destruct p; [apply le_n | simpl in Hn; lia].
  - destruct p as [ | c r1]; [apply le_n | ].
    cbn [length] in Hn.
    assert (H1 : (utf8.RuneCount r1 <= length r1)%nat) by (apply IH; lia).
    cbn [utf8.RuneCount length]. apply le_n_S.
    destruct (c <? 128); [exact H1 | ].
    destruct (utf8.lead c) as [[[size lo] hi] | ]; [ | exact H1].
    destruct r1 as [ | c1 r2]; [exact H1 | ].
    cbn [length] in *.
    assert (H2 : (utf8.RuneCount r2 <= length r2)%nat) by (apply IH; lia).
    destruct (negb ((lo <=? c1) && (c1 <=? hi))); [exact H1 | ].
    destruct (size =? 2)%nat; [lia | ].
    destruct r2 as [ | c2 r3]; [exact H1 | ].
    cbn [length] in *.
    assert (H3 : (utf8.RuneCount r3 <= length r3)%nat) by (apply IH; lia).
    destruct (negb (utf8.cont c2)); [exact H1 | ].
    destruct (size =? 3)%nat; [lia | ].
    destruct r3 as [ | c3 r4]; [exact H1 | ].
    cbn [length] in *.
    assert (H4 : (utf8.RuneCount r4 <= length r4)%nat) by (apply IH; lia).
    destruct (negb (utf8.cont c3)); [exact H1 | lia].
Qed.

(** A string has no more characters than bytes. *)
Lemma RuneCountInString_le (s : string) :
  (utf8.RuneCountInString s <= String.length s)%nat.
Proof.
  unfold utf8.RuneCountInString. rewrite <- bytes_of_string_length.
  apply (RuneCount_le_upto (length (bytes_of_string s))). apply le_n.
Qed.

(** Only the empty string has no character. *)
Lemma RuneCountInString_zero (s : string) :
  utf8.RuneCountInString s = O -> s = EmptyString.
Proof. destruct s; [reflexivity | discriminate]. Qed.

(** A string of ASCII bytes has as many characters as bytes. *)
Lemma RuneCount_ascii (p : list Z) :
  Forall (fun c => c < 0x80) p -> utf8.RuneCount p = length p.
Proof.
  induction p as [ | c p IH]; intros H; [reflexivity | ].
  inversion H as [ | ? ? Hc Hp]; subst.
  cbn [utf8.RuneCount length].
  destruct (Z.ltb_spec c 128); [ | lia]. rewrite (IH Hp). reflexivity.
Qed.

(** Without overflow the wall-clock time is the conversion of the
    integer difference; it wraps when the difference leaves [int64], and
    above 2^53 the conversion rounds. *)
Lemma wallClockElapsed_exact (t start : Z) :
  int64_ok (t - start) -> wallClockElapsed t start = float64_of_int (t - start).
Proof. intros H. unfold wallClockElapsed. rewrite (wrap64_small _ H). reflexivity. Qed.

Example wallClockElapsed_wraps_and_rounds :
  float_lt (wallClockElapsed demoStart (- 2 ^ 63)) (float64_of_int 0) = true
  /\ float64_of_int (2 ^ 53 + 1) = float64_of_int (2 ^ 53)
  /\ float64_of_int (2 ^ 53 + 3) = float64_of_int (2 ^ 53 + 4).
Proof. split_all; vm_compute; reflexivity. Qed.

(** ** [addScore]: acceptance and rejection *)

Lemma addScore_accepts (now : Z) (sc : Score) (s : HighScoreServer) :
  Verify (hmacKey s) (Token_ sc) = true ->
  0 <= RemainingHealth sc ->
  1 <= len (PlayerName sc) <= 3 ->
  float_lt (wallClockElapsed now (Start (Token_ sc))) (Elapsed sc) = false ->
  addScore now (DecodeOk sc) s
  = mkReply StatusCreated [] (set_scores s (scores s ++ [stripped sc])).
Proof.
  intros V Hh Hn Ht. rewrite (addScore_verified s now sc V). cbv zeta.
  destruct (Z.ltb_spec (RemainingHealth sc) 0); [lia | ].
  destruct (Z.ltb_spec (len (PlayerName sc)) 1); [lia | ].
  destruct (Z.ltb_spec 3 (len (PlayerName sc))); [lia | ].
  cbn [orb]. rewrite Ht. reflexivity.
Qed.

Lemma Verify_false_cases (key : list Z) (tok : Token) :
  Verify key tok = false
  <-> Base64.DecodeString (Hmac tok) = None
      \/ (exists signature,
             Base64.DecodeString (Hmac tok) = Some signature
             /\ signature <> expectedMac key (Start tok)).
Proof.
  unfold Verify. destruct (Base64.DecodeString (Hmac tok)) as [sig | ].
  - split.
    + intros E. right. exists sig. split; [reflexivity | ].
      intros ->. rewrite hmac_Equal_refl in E. discriminate.
    + intros [H | (sig' & [= <-] & Hne)]; [discriminate | ].
      apply hmac_Equal_false, Hne.
  - split; [left; reflexivity | reflexivity].
Qed.

(** A failed validation is a 400, nothing logged but an odd elapsed
    time, and the server as it was. *)
Lemma addScore_rejects (now : Z) (body : Decoded) (s : HighScoreServer) :
  fails_validation now (hmacKey s) body ->
  status (addScore now body s) = StatusBadRequest
  /\ server (addScore now body s) = s.
Proof.
  destruct body as [err | sc]; [intros _; split; reflexivity | ].
  cbn [fails_validation]. intros H.
  destruct (Verify (hmacKey s) (Token_ sc)) eqn:V.
  - rewrite (addScore_verified s now sc V). cbv zeta.
    destruct H as [H | [H | H]].
    + apply Verify_true in V. congruence.
    + destruct H as (sig & E & Hne). apply Verify_true in V. congruence.
    + destruct (Z.ltb_spec (RemainingHealth sc) 0); [split; reflexivity | ].
      destruct (Z.ltb_spec (len (PlayerName sc)) 1); [split; reflexivity | ].
      destruct (Z.ltb_spec 3 (len (PlayerName sc))); [split; reflexivity | ].
      cbn [orb].
      destruct H as [H | [H | [H | H]]]; try lia.
      rewrite H. split; reflexivity.
  - rewrite (addScore_unverified s now sc V). split; reflexivity.
Qed.

(** Nothing else is rejected. *)
Lemma addScore_created (now : Z) (body : Decoded) (s : HighScoreServer) :
  status (addScore now body s) = StatusCreated ->
  exists sc,
    body = DecodeOk sc
    /\ Verify (hmacKey s) (Token_ sc) = true
    /\ 0 <= RemainingHealth sc
    /\ 1 <= len (PlayerName sc) <= 3
    /\ float_lt (wallClockElapsed now (Start (Token_ sc))) (Elapsed sc) = false
    /\ addScore now body s
       = mkReply StatusCreated [] (set_scores s (scores s ++ [stripped sc])).
Proof.
  destruct body as [err | sc]; [discriminate | ].
  destruct (Verify (hmacKey s) (Token_ sc)) eqn:V.
  - rewrite (addScore_verified s now sc V). cbv zeta.
    destruct (Z.ltb_spec (RemainingHealth sc) 0); [discriminate | ].
    destruct (Z.ltb_spec (len (PlayerName sc)) 1); [discriminate | ].
    destruct (Z.ltb_spec 3 (len (PlayerName sc))); [discriminate | ].
    cbn [orb].
    destruct (float_lt (wallClockElapsed now (Start (Token_ sc))) (Elapsed sc)) eqn:T;
      [discriminate | ].
    intros _. exists sc. split_all; try assumption; try reflexivity; lia.
  - rewrite (addScore_unverified s now sc V). discriminate.
Qed.

(** ** [truncateAndGetScores]: what it returns *)

Lemma truncateAndGetScores_nonneg (n : Z) (s : HighScoreServer) :
  0 <= n ->
  truncateAndGetScores n s
  = Some (firstn (Z.to_nat n) (SortStableFunc scoreCmp (scores s)),
          set_scores s (firstn (Z.to_nat n) (SortStableFunc scoreCmp (scores s)))).
Proof.
  intros Hn. unfold truncateAndGetScores. cbv zeta.
  destruct (Z.ltb_spec (Z.of_nat (length (SortStableFunc scoreCmp (scores s)))) n)
    as [Hlt | Hge].
  - destruct (Z.ltb_spec (Z.of_nat (length (SortStableFunc scoreCmp (scores s)))) 0);
      [lia | ].
    rewrite Nat2Z.id, firstn_all, (firstn_all2 (n := Z.to_nat n)) by lia.
    reflexivity.
  - destruct (Z.ltb_spec n 0); [lia | reflexivity].
Qed.

Lemma truncateAndGetScores_negative (n : Z) (s : HighScoreServer) :
  n < 0 -> truncateAndGetScores n s = None.
Proof.
  intros Hn. unfold truncateAndGetScores. cbv zeta.
  destruct (Z.ltb_spec (Z.of_nat (length (SortStableFunc scoreCmp (scores s)))) n);
    [lia | ].
  destruct (Z.ltb_spec n 0); [reflexivity | lia].
Qed.

Lemma truncateAndGetScores_some (n : Z) (s s1 : HighScoreServer) (kept : list Score) :
  truncateAndGetScores n s = Some (kept, s1) ->
  0 <= n
  /\ kept = firstn (Z.to_nat n) (SortStableFunc scoreCmp (scores s))
  /\ s1 = set_scores s kept.
Proof.
  intros H. destruct (Z.lt_ge_cases n 0) as [Hneg | Hpos].
  - rewrite (truncateAndGetScores_negative n s Hneg) in H. discriminate.
  - rewrite (truncateAndGetScores_nonneg n s Hpos) in H.
    injection H as <- <-. auto.
Qed.

(** What the returned slice is: sorted by [scoreCmp], that is by
    [remaining_health] upwards and, for equal health, by [elapsed]
    downwards; and no longer than [n]. *)
Lemma truncateAndGetScores_sorted (n : Z) (s s1 : HighScoreServer) (kept : list Score) :
  truncateAndGetScores n s = Some (kept, s1) ->
  IsSortedFunc scoreCmp kept = true
  /\ ForallOrdPairs (fun a b => scoreCmp a b <= 0) kept
  /\ Z.of_nat (length kept) <= n.
Proof.
  intros H. apply truncateAndGetScores_some in H. destruct H as (Hn & -> & _).
  assert (Hs : IsSortedFunc scoreCmp
                 (firstn (Z.to_nat n) (SortStableFunc scoreCmp (scores s))) = true).
  { apply IsSortedFunc_firstn, SortStableFunc_sorted, Comparator_scoreCmp. }
  split; [exact Hs | split].
  - apply IsSortedFunc_pairs; [apply Comparator_scoreCmp | exact Hs].
  - pose proof (firstn_le_length (Z.to_nat n) (SortStableFunc scoreCmp (scores s))).
    lia.
Qed.

(** [scoreCmp a b <= 0], spelled out. *)
Lemma scoreCmp_le (a b : Score) :
  scoreCmp a b <= 0
  <-> RemainingHealth a < RemainingHealth b
      \/ (RemainingHealth a = RemainingHealth b
          /\ 0 <= Compare_float64 (Elapsed a) (Elapsed b)).
Proof.
  unfold scoreCmp, Or, Compare_int.
  destruct (Z.ltb_spec (RemainingHealth a) (RemainingHealth b));
    destruct (Z.ltb_spec (RemainingHealth b) (RemainingHealth a)); cbn [Z.eqb]; lia.
Qed.

(** * The claims *)

(** Closed statements about the demonstration data, by evaluation. *)
Ltac evaluate :=
  split_all;
  first [ vm_compute; reflexivity | vm_compute; discriminate ].

(** ** Ranking *)

(** C1 (what the code does at the scenario of the claim): two scores of
    health 80, "BBB" with elapsed 10.0 and "CCC" with elapsed 5.0, are
    submitted and accepted; whichever order they are stored in, the
    ranking returns "BBB" before "CCC", which is not the descending
    ranking of the specification, and truncating to one score keeps
    "BBB".  Likewise of health 10 and health 90 it is health 10 that is
    kept. *)
Theorem ranking_of_BBB_and_CCC :
  run demoServer [PostRecord (demoStart + 60) (DecodeOk BBB);
                  PostRecord (demoStart + 60) (DecodeOk CCC)]
  = Some (set_scores demoServer [stripped BBB; stripped CCC])
  /\ scoreCmp BBB CCC = -1
  /\ option_map fst (truncateAndGetScores NUM_SCORES
                       (set_scores demoServer [stripped BBB; stripped CCC]))
     = Some [stripped BBB; stripped CCC]
  /\ option_map fst (truncateAndGetScores NUM_SCORES
                       (set_scores demoServer [stripped CCC; stripped BBB]))
     = Some [stripped BBB; stripped CCC]
  /\ ranked_descending [stripped BBB; stripped CCC] = false
  /\ ranked_descending [stripped CCC; stripped BBB] = true
  /\ option_map fst (truncateAndGetScores 1
                       (set_scores demoServer [stripped CCC; stripped BBB]))
     = Some [stripped BBB]
  /\ option_map fst (truncateAndGetScores 1 (set_scores demoServer [highScore; lowScore]))
     = Some [lowScore].
Proof. evaluate. Qed.

(** ** The name of the player *)

(** C2 (counterexample): the name U+00E9 U+00E9 has two characters and
    four bytes; the submission is valid otherwise, and is rejected. *)
Lemma two_character_name_rejected :
  Verify (hmacKey demoServer) (Token_ accentScore) = true
  /\ 0 <= RemainingHealth accentScore
  /\ float_lt (wallClockElapsed (demoStart + 60) (Start (Token_ accentScore)))
              (Elapsed accentScore) = false
  /\ utf8.RuneCountInString (PlayerName accentScore) = 2%nat
  /\ status (addScore (demoStart + 60) (DecodeOk accentScore) demoServer)
     = StatusBadRequest.
Proof. evaluate. Qed.

(** C2 (amended): the length [addScore] compares is the number of bytes
    of the name.  A name of 0 or at least 4 bytes is rejected with 400,
    hence every name of 0 or at least 4 characters; an otherwise valid
    submission with a name of 1 to 3 bytes is accepted with 201. *)
Theorem name_length_in_bytes (now : Z) (sc : Score) (s : HighScoreServer) :
  ((len (PlayerName sc) = 0 \/ 4 <= len (PlayerName sc)) ->
   status (addScore now (DecodeOk sc) s) = StatusBadRequest)
  /\ ((utf8.RuneCountInString (PlayerName sc) = 0
       \/ 4 <= utf8.RuneCountInString (PlayerName sc))%nat ->
      status (addScore now (DecodeOk sc) s) = StatusBadRequest)
  /\ (Verify (hmacKey s) (Token_ sc) = true ->
      0 <= RemainingHealth sc ->
      float_lt (wallClockElapsed now (Start (Token_ sc))) (Elapsed sc) = false ->
      1 <= len (PlayerName sc) <= 3 ->
      status (addScore now (DecodeOk sc) s) = StatusCreated).
Proof.
  assert (Hbytes : (len (PlayerName sc) = 0 \/ 4 <= len (PlayerName sc)) ->
                   status (addScore now (DecodeOk sc) s) = StatusBadRequest).
  { intros H. apply addScore_rejects. cbn [fails_validation]. lia. }
  split; [exact Hbytes | split].
  - intros H. apply Hbytes. unfold len.
    pose proof (RuneCountInString_le (PlayerName sc)).
    destruct H as [H | H]; [ | lia].
    left. rewrite (RuneCountInString_zero _ H). reflexivity.
  - intros V Hh Ht Hn. rewrite (addScore_accepts now sc s V Hh Hn Ht). reflexivity.
Qed.

Lemma name_length_in_bytes_witness :
  status (addScore (demoStart + 60) (DecodeOk BBB) demoServer) = StatusCreated
  /\ status (addScore (demoStart + 60) (DecodeOk accentScore) demoServer)
     = StatusBadRequest.
Proof.
  split.
  - apply (proj2 (proj2 (name_length_in_bytes (demoStart + 60) BBB demoServer)));
      first [ vm_compute; reflexivity | vm_compute; discriminate | idtac ].
    split; vm_compute; discriminate.
  - apply (proj1 (name_length_in_bytes (demoStart + 60) accentScore demoServer)).
    right. vm_compute. discriminate.
Defined.

(** ** Tokens *)

(** C3: a token minted by [getToken] at any clock reading [t] carries
    [t] and the base64 of HMAC-SHA256(key, little-endian 64-bit [t]),
    and passes the verification [addScore] makes under the same key. *)
Theorem Verify_getToken (t : Z) (s : HighScoreServer) :
  fst (getToken t s) = StatusCreated
  /\ Start (snd (getToken t s)) = t
  /\ Hmac (snd (getToken t s))
     = Base64.EncodeToString (HMAC.sum (hmacKey s) (PutUint64 (uint64 t)))
  /\ Verify (hmacKey s) (snd (getToken t s)) = true.
Proof.
  split_all; try reflexivity. apply Verify_true. cbn [getToken snd Hmac Start].
  unfold expectedMac. apply DecodeString_EncodeToString, HMAC_sum_bytes.
Qed.

(** C4: a token whose [hmac] is not base64, or decodes to something
    other than HMAC-SHA256(key, little-endian 64-bit [start]), fails
    verification, and the submission gets 400 and changes nothing. *)
Theorem tampered_token_rejected (now : Z) (sc : Score) (s : HighScoreServer) :
  Base64.DecodeString (Hmac (Token_ sc)) = None
  \/ (exists signature,
         Base64.DecodeString (Hmac (Token_ sc)) = Some signature
         /\ signature <> expectedMac (hmacKey s) (Start (Token_ sc))) ->
  Verify (hmacKey s) (Token_ sc) = false
  /\ status (addScore now (DecodeOk sc) s) = StatusBadRequest
  /\ server (addScore now (DecodeOk sc) s) = s.
Proof.
  intros H. apply Verify_false_cases in H.
  rewrite (addScore_unverified s now sc H). split_all; try reflexivity. exact H.
Qed.

Lemma tampered_token_rejected_witness :
  Verify (hmacKey demoServer) (Token_ garbledScore) = false
  /\ status (addScore demoStart (DecodeOk garbledScore) demoServer) = StatusBadRequest
  /\ server (addScore demoStart (DecodeOk garbledScore) demoServer) = demoServer.
Proof.
  apply (tampered_token_rejected demoStart garbledScore demoServer).
  left. vm_compute. reflexivity.
Defined.

(** A start moved back an hour under the signature of another start,
    and a signature with its first character changed. *)
Example tampered_start_and_signature :
  Verify demoKey (mkToken (demoStart - 3600) (Hmac demoToken)) = false
  /\ Hmac demoToken = "m0t9oeFrVEAePbRKQAlEc4rVAKDZcghOHXweGqnYppA="%string
  /\ Verify demoKey (mkToken demoStart "n0t9oeFrVEAePbRKQAlEc4rVAKDZcghOHXweGqnYppA=")
     = false.
Proof. evaluate. Qed.

(** [StdEncoding] is not strict: the two bits the last character has to
    spare are dropped, and line breaks are skipped, so these other
    spellings decode to the same signature and verify. *)
Example other_spellings_verify :
  Verify demoKey (mkToken demoStart "m0t9oeFrVEAePbRKQAlEc4rVAKDZcghOHXweGqnYppB=")
  = true
  /\ Verify demoKey
       (mkToken demoStart
          (String "010" "m0t9oeFrVEAePbRKQAlEc4rVAKDZcghOHXweGqnYppA="))
     = true.
Proof. evaluate. Qed.

(** ** The elapsed time *)




(** C9: the wall-clock time has whole seconds only.  A submission made
    in the second its token was issued in is compared against 0, so any
    positive [elapsed], a fraction of a second included, gets 400; it is
    the timing check that rejects and logs it when the other checks are
    passed. *)
Theorem same_second_fraction_rejected (now : Z) (sc : Score) (s : HighScoreServer) :
  Start (Token_ sc) = now ->
  float_lt (float64_of_int 0) (Elapsed sc) = true ->
  wallClockElapsed now (Start (Token_ sc)) = float64_of_int 0
  /\ status (addScore now (DecodeOk sc) s) = StatusBadRequest
  /\ server (addScore now (DecodeOk sc) s) = s
  /\ (Verify (hmacKey s) (Token_ sc) = true ->
      0 <= RemainingHealth sc -> 1 <= len (PlayerName sc) <= 3 ->
      logged (addScore now (DecodeOk sc) s)
      = [OddElapsed (Elapsed sc) (float64_of_int 0)]).
Proof.
  intros Hsame Hpos.
  assert (Hw : wallClockElapsed now (Start (Token_ sc)) = float64_of_int 0).
  { rewrite Hsame. apply wallClockElapsed_same_second. }
  assert (F : fails_validation now (hmacKey s) (DecodeOk sc)).
  { cbn [fails_validation]. rewrite Hw. tauto. }
  destruct (addScore_rejects now (DecodeOk sc) s F) as [Hst Hsrv].
  split_all; [exact Hw | exact Hst | exact Hsrv | ].
  intros V Hh Hn. rewrite (addScore_verified s now sc V). cbv zeta.
  destruct (Z.ltb_spec (RemainingHealth sc) 0); [lia | ].
  destruct (Z.ltb_spec (len (PlayerName sc)) 1); [lia | ].
  destruct (Z.ltb_spec 3 (len (PlayerName sc))); [lia | ].
  cbn [orb]. rewrite Hw, Hpos. reflexivity.
Qed.

Lemma same_second_fraction_rejected_witness :
  float_lt half (float64_of_int 1) = true
  /\ status (addScore demoStart (DecodeOk halfScore) demoServer) = StatusBadRequest
  /\ logged (addScore demoStart (DecodeOk halfScore) demoServer)
     = [OddElapsed half (float64_of_int 0)].
Proof.
  split; [vm_compute; reflexivity | ].
  destruct (same_second_fraction_rejected demoStart halfScore demoServer)
    as (_ & Hst & _ & Hlog); [reflexivity | vm_compute; reflexivity | ].
  split; [exact Hst | ].
  apply Hlog; [vm_compute; reflexivity | vm_compute; discriminate | ].
  split; vm_compute; discriminate.
Defined.

(** ** Rejection *)

(** C6: a submission that fails any step of the validation (undecodable
    body, bad base64, signature mismatch, negative health, name length
    out of bounds, elapsed time above the wall clock) gets 400 and leaves
    the server, its scores in particular, exactly as it was. *)
Theorem rejection_changes_nothing (now : Z) (body : Decoded) (s : HighScoreServer) :
  fails_validation now (hmacKey s) body ->
  status (addScore now body s) = StatusBadRequest
  /\ server (addScore now body s) = s
  /\ scores (server (addScore now body s)) = scores s.
Proof.
  intros F. destruct (addScore_rejects now body s F) as [Hst Hsrv].
  rewrite Hsrv. auto.
Qed.

Lemma rejection_changes_nothing_witness :
  status (addScore demoStart (DecodeOk (mkScore "AAA" (float64_of_int 0) (-1) demoToken))
            (set_scores demoServer [lowScore])) = StatusBadRequest
  /\ server (addScore demoStart (DecodeOk (mkScore "AAA" (float64_of_int 0) (-1) demoToken))
               (set_scores demoServer [lowScore])) = set_scores demoServer [lowScore]
  /\ scores (server (addScore demoStart
                       (DecodeOk (mkScore "AAA" (float64_of_int 0) (-1) demoToken))
                       (set_scores demoServer [lowScore]))) = [lowScore].
Proof.
  apply (rejection_changes_nothing demoStart
           (DecodeOk (mkScore "AAA" (float64_of_int 0) (-1) demoToken))
           (set_scores demoServer [lowScore])).
  cbn [fails_validation RemainingHealth]. right. right. left. lia.
Defined.

(** The converse: what is not rejected is accepted, and appends the
    stripped score. *)
Lemma created_unless_rejected (now : Z) (body : Decoded) (s : HighScoreServer) :
  status (addScore now body s) = StatusCreated
  <-> ~ fails_validation now (hmacKey s) body.
Proof.
  split.
  - intros H F. destruct (addScore_rejects now body s F) as [Hst _].
    rewrite Hst in H. discriminate.
  - intros NF. destruct body as [err | sc]; [exfalso; apply NF; exact I | ].
    cbn [fails_validation] in NF.
    destruct (Verify (hmacKey s) (Token_ sc)) eqn:V.
    + rewrite (addScore_accepts now sc s V); [reflexivity | lia | lia | ].
      destruct (float_lt (wallClockElapsed now (Start (Token_ sc))) (Elapsed sc));
        [exfalso; apply NF; tauto | reflexivity].
    + exfalso. apply Verify_false_cases in V. tauto.
Qed.

(** ** Truncation *)

(** C10: for [0 <= n] the call returns, and the store is left with
    [min n (previous length)] scores; for [n < 0] the slice expression
    panics.  [stream], the only caller, passes [NUM_SCORES = 20], so its
    call never panics. *)
Theorem truncateAndGetScores_total (n : Z) (s : HighScoreServer) :
  (0 <= n ->
   exists kept,
     truncateAndGetScores n s = Some (kept, set_scores s kept)
     /\ Z.of_nat (length kept) = Z.min n (Z.of_nat (length (scores s))))
  /\ (n < 0 -> truncateAndGetScores n s = None)
  /\ streamTick s = truncateAndGetScores 20 s
  /\ streamTick s <> None.
Proof.
  split_all.
  - intros Hn. eexists. split; [apply (truncateAndGetScores_nonneg n s Hn) | ].
    rewrite length_firstn, SortStableFunc_length. lia.
  - apply truncateAndGetScores_negative.
  - reflexivity.
  - unfold streamTick. rewrite truncateAndGetScores_nonneg by (unfold NUM_SCORES; lia).
    discriminate.
Qed.

Lemma truncateAndGetScores_total_witness :
  (exists kept,
     truncateAndGetScores 1 (set_scores demoServer [highScore; lowScore])
     = Some (kept, set_scores (set_scores demoServer [highScore; lowScore]) kept)
     /\ Z.of_nat (length kept)
        = Z.min 1 (Z.of_nat (length (scores (set_scores demoServer [highScore; lowScore])))))
  /\ truncateAndGetScores (-1) demoServer = None.
Proof.
  split.
  - apply (proj1 (truncateAndGetScores_total 1 (set_scores demoServer [highScore; lowScore]))).
    lia.
  - apply (proj1 (proj2 (truncateAndGetScores_total (-1) demoServer))). lia.
Defined.

(** C7: once a call has returned, hence with a store no longer than
    [n], the next call returns the same sequence and leaves the store
    equal to it.  The sort is stable: for every score, the scores that
    compare equal to it come out in the order they went in. *)
Theorem truncateAndGetScores_idempotent
        (n : Z) (s s1 : HighScoreServer) (kept : list Score) :
  truncateAndGetScores n s = Some (kept, s1) ->
  Z.of_nat (length (scores s1)) <= n
  /\ truncateAndGetScores n s1 = Some (kept, s1)
  /\ scores s1 = kept
  /\ (forall x,
        filter (fun y => scoreCmp x y =? 0) (SortStableFunc scoreCmp (scores s))
        = filter (fun y => scoreCmp x y =? 0) (scores s)).
Proof.
  intros H.
  destruct (truncateAndGetScores_sorted n s s1 kept H) as (Hs & _ & Hlen).
  apply truncateAndGetScores_some in H. destruct H as (Hn & Hk & ->).
  cbn [set_scores scores]. split_all.
  - exact Hlen.
  - rewrite (truncateAndGetScores_nonneg n _ Hn). cbn [set_scores scores hmacKey adminPassword].
    rewrite (SortStableFunc_id scoreCmp kept Hs), firstn_all2 by lia. reflexivity.
  - reflexivity.
  - intros x. apply SortStableFunc_stable, Comparator_scoreCmp.
Qed.

Lemma truncateAndGetScores_idempotent_witness :
  truncateAndGetScores 20 (set_scores demoServer [lowScore; highScore])
  = Some ([lowScore; highScore], set_scores demoServer [lowScore; highScore]).
Proof.
  apply (truncateAndGetScores_idempotent 20
           (set_scores demoServer [highScore; lowScore])
           (set_scores demoServer [lowScore; highScore]) [lowScore; highScore]).
  vm_compute. reflexivity.
Defined.

(** ** The store holds no token *)

Lemma tokens_stripped_app (l : list Score) (sc : Score) :
  tokens_stripped l -> tokens_stripped (l ++ [stripped sc]).
Proof.
  intros H. apply Forall_app. split; [exact H | ].
  constructor; [reflexivity | constructor].
Qed.

Lemma Forall_prefix {A : Type} (P : A -> Prop) (n : nat) (l : list A) :
  Forall P l -> Forall P (firstn n l).
Proof.
  revert l. induction n as [ | n IH]; intros l H; [constructor | ].
  destruct H as [ | a l Ha Hl]; [constructor | ].
  cbn [firstn]. constructor; [exact Ha | apply IH, Hl].
Qed.

Lemma addScore_keeps_stripped (now : Z) (body : Decoded) (s : HighScoreServer) :
  tokens_stripped (scores s) -> tokens_stripped (scores (server (addScore now body s))).
Proof.
  intros H. destruct (addScore_reply s now body) as [[_ E] | E].
  - rewrite E. exact H.
  - apply addScore_created in E. destruct E as (sc & _ & _ & _ & _ & _ & ->).
    apply tokens_stripped_app, H.
Qed.

Lemma truncate_keeps_stripped (n : Z) (s s1 : HighScoreServer) (kept : list Score) :
  tokens_stripped (scores s) ->
  truncateAndGetScores n s = Some (kept, s1) ->
  tokens_stripped kept /\ tokens_stripped (scores s1).
Proof.
  intros H E. apply truncateAndGetScores_some in E. destruct E as (_ & -> & ->).
  assert (Hk : tokens_stripped (firstn (Z.to_nat n) (SortStableFunc scoreCmp (scores s)))).
  { unfold tokens_stripped in *. apply Forall_prefix.
    apply (Permutation_Forall (Permutation_sym (SortStableFunc_perm scoreCmp (scores s)))).
    exact H. }
  split; exact Hk.
Qed.

Lemma step_keeps_stripped (s s' : HighScoreServer) (r : Request) :
  tokens_stripped (scores s) -> step s r = Some s' -> tokens_stripped (scores s').
Proof.
  intros H. destruct r as [now | now body | form | ]; cbn [step].
  - intros [= <-]. exact H.
  - intros [= <-]. apply addScore_keeps_stripped, H.
  - intros [= <-]. destruct form as [ | pw]; cbn [resetScore server]; [exact H | ].
    destruct (String.eqb pw (adminPassword s)); cbn [server set_scores scores];
      [constructor | exact H].
  - unfold streamTick.
    destruct (truncateAndGetScores NUM_SCORES s) as [[kept s1] | ] eqn:E; [ | discriminate].
    intros [= <-]. apply (truncate_keeps_stripped NUM_SCORES s s1 kept H E).
Qed.

Lemma run_keeps_stripped (rs : list Request) (s s' : HighScoreServer) :
  tokens_stripped (scores s) -> run s rs = Some s' -> tokens_stripped (scores s').
Proof.
  revert s. induction rs as [ | r rs IH]; intros s H; cbn [run].
  - intros [= <-]. exact H.
  - destruct (step s r) as [s1 | ] eqn:E; [ | discriminate].
    apply IH. apply (step_keeps_stripped s s1 r H E).
Qed.

(** C8: an accepted score is appended with its token replaced by the
    zero token, and in every state the server reaches from its start,
    by any sequence of requests and stream ticks, every stored score,
    and every score a tick returns, carries the zero token. *)
Theorem store_holds_no_token :
  (forall now body s,
      status (addScore now body s) = StatusCreated ->
      exists sc,
        body = DecodeOk sc
        /\ scores (server (addScore now body s)) = scores s ++ [stripped sc]
        /\ Token_ (stripped sc) = zeroToken)
  /\ (forall key pw rs s,
         run (initialServer key pw) rs = Some s ->
         tokens_stripped (scores s)
         /\ (forall kept s', streamTick s = Some (kept, s') -> tokens_stripped kept)).
Proof.
  split.
  - intros now body s H. apply addScore_created in H.
    destruct H as (sc & -> & _ & _ & _ & _ & ->).
    exists sc. split_all; reflexivity.
  - intros key pw rs s H.
    assert (Hs : tokens_stripped (scores s)).
    { apply (run_keeps_stripped rs (initialServer key pw) s); [constructor | exact H]. }
    split; [exact Hs | ].
    intros kept s' E. apply (truncate_keeps_stripped NUM_SCORES s s' kept Hs E).
Qed.

Lemma store_holds_no_token_witness :
  tokens_stripped
    (scores (set_scores demoServer [stripped BBB; stripped CCC])).
Proof.
  apply (proj2 store_holds_no_token demoKey "changeme"%string
           [PostStart demoStart;
            PostRecord (demoStart + 60) (DecodeOk BBB);
            PostRecord (demoStart + 60) (DecodeOk CCC);
            EventsTick]
           (set_scores demoServer [stripped BBB; stripped CCC])).
  vm_compute. reflexivity.
Defined.

(** ** A session *)

(** A token is issued at [t0]; "AAA" is submitted at once with elapsed 0
    and health 50 and accepted; the next tick returns it alone.  With
    elapsed 1000000 the same submission gets 400. *)
Example issue_submit_rank :
  status (addScore demoStart (DecodeOk (mkScore "AAA" (float64_of_int 0) 50 demoToken))
            demoServer) = StatusCreated
  /\ option_map fst
       (streamTick
          (server (addScore demoStart
                     (DecodeOk (mkScore "AAA" (float64_of_int 0) 50 demoToken))
                     demoServer)))
     = Some [mkScore "AAA" (float64_of_int 0) 50 zeroToken]
  /\ status (addScore demoStart
               (DecodeOk (mkScore "AAA" (float64_of_int 1000000) 50 demoToken))
               demoServer) = StatusBadRequest
  /\ option_map fst
       (streamTick (server (resetScore (FormValue "changeme")
                              (set_scores demoServer [lowScore; highScore]))))
     = Some [].
Proof. evaluate. Qed.

(** * Further properties of the code *)

(** ** The order of the scores *)

Lemma float_lt_asym (x y : float64) : float_lt x y = true -> float_lt y x = false.
Proof.
  unfold float_lt, SFltb. rewrite (SFcompare_antisym x y).
  destruct (SFcompare x y) as [[ | | ] | ]; simpl; congruence.
Qed.

Lemma scoreCmp_sign (a b : Score) :
  scoreCmp a b = -1 \/ scoreCmp a b = 0 \/ scoreCmp a b = 1.
Proof.
  unfold scoreCmp, Or, Compare_int, Compare_float64.
  destruct (RemainingHealth a <? RemainingHealth b); [auto | ].
  destruct (RemainingHealth b <? RemainingHealth a); [auto | ].
  cbn [Z.eqb].
  destruct (isNaN (Elapsed a)), (isNaN (Elapsed b)); cbn; auto;
    destruct (float_lt (Elapsed a) (Elapsed b)); cbn; auto;
    destruct (float_lt (Elapsed b) (Elapsed a)); cbn; auto.
Qed.

(** X1: [scoreCmp] is a comparison [slices.SortStableFunc] can sort by,
    on every pair of scores, a NaN elapsed included: swapping the
    arguments negates the result, [<= 0] is transitive, and the result
    is -1, 0 or 1. *)
Theorem scoreCmp_strict_weak_order :
  (forall a b, scoreCmp b a = - scoreCmp a b)
  /\ (forall a b c, scoreCmp a b <= 0 -> scoreCmp b c <= 0 -> scoreCmp a c <= 0)
  /\ (forall a b, scoreCmp a b = -1 \/ scoreCmp a b = 0 \/ scoreCmp a b = 1).
Proof.
  split_all.
  - intros a b. apply (cmp_antisym scoreCmp Comparator_scoreCmp).
  - apply (cmp_trans scoreCmp Comparator_scoreCmp).
  - apply scoreCmp_sign.
Qed.

Lemma scoreCmp_strict_weak_order_witness : scoreCmp lowScore highScore <= 0.
Proof.
  apply (proj1 (proj2 scoreCmp_strict_weak_order) lowScore BBB highScore);
    vm_compute; discriminate.
Defined.

(** X2: for elapsed times that are numbers, [scoreCmp a b] is negative
    exactly when [a] has less health than [b], or as much and a larger
    elapsed time; it is zero exactly when health is equal and neither
    elapsed time is below the other. *)
Theorem scoreCmp_meaning (a b : Score) :
  isNaN (Elapsed a) = false -> isNaN (Elapsed b) = false ->
  (scoreCmp a b < 0
   <-> RemainingHealth a < RemainingHealth b
       \/ (RemainingHealth a = RemainingHealth b
           /\ float_lt (Elapsed b) (Elapsed a) = true))
  /\ (scoreCmp a b = 0
      <-> RemainingHealth a = RemainingHealth b
          /\ float_lt (Elapsed a) (Elapsed b) = false
          /\ float_lt (Elapsed b) (Elapsed a) = false).
Proof.
  intros Na Nb. unfold scoreCmp, Or, Compare_int, Compare_float64.
  rewrite Na, Nb.
  destruct (Z.ltb_spec (RemainingHealth a) (RemainingHealth b));
    destruct (Z.ltb_spec (RemainingHealth b) (RemainingHealth a));
    cbn [Z.eqb]; try lia;
    try (split; split; intros; try lia; intuition lia).
  destruct (float_lt (Elapsed a) (Elapsed b)) eqn:Lab.
  - rewrite (float_lt_asym _ _ Lab). cbn.
    split; split; intros; try lia; intuition (try discriminate; lia).
  - destruct (float_lt (Elapsed b) (Elapsed a)); cbn;
      split; split; intros; try lia; intuition (try discriminate; lia).
Qed.

Lemma scoreCmp_meaning_witness :
  scoreCmp BBB CCC < 0
  <-> RemainingHealth BBB < RemainingHealth CCC
      \/ (RemainingHealth BBB = RemainingHealth CCC
          /\ float_lt (Elapsed CCC) (Elapsed BBB) = true).
Proof.
  apply (proj1 (scoreCmp_meaning BBB CCC eq_refl eq_refl)).
Defined.

(** ** What truncation keeps *)

Lemma ForallOrdPairs_app_cross {A : Type} (R : A -> A -> Prop) (l1 l2 : list A) :
  ForallOrdPairs R (l1 ++ l2) ->
  forall x y, In x l1 -> In y l2 -> R x y.
Proof.
  induction l1 as [ | a l1 IH]; intros H x y Hx Hy; [contradiction | ].
  cbn [app] in H. inversion H as [ | ? ? Ha Hl]; subst.
  destruct Hx as [<- | Hx].
  - rewrite Forall_forall in Ha. apply Ha, in_or_app. right. exact Hy.
  - apply (IH Hl x y Hx Hy).
Qed.

(** X3: [truncateAndGetScores] splits the store in two and loses
    nothing else: the scores kept and the scores dropped are together a
    rearrangement of the store, no score kept compares above a score
    dropped, and a store of at most [n] scores drops none. *)
Theorem truncate_drops_the_tail
        (n : Z) (s s1 : HighScoreServer) (kept : list Score) :
  truncateAndGetScores n s = Some (kept, s1) ->
  exists dropped,
    Permutation (kept ++ dropped) (scores s)
    /\ (forall k d, In k kept -> In d dropped -> scoreCmp k d <= 0)
    /\ (Z.of_nat (length (scores s)) <= n -> dropped = []).
Proof.
  intros H. apply truncateAndGetScores_some in H. destruct H as (Hn & -> & _).
  exists (skipn (Z.to_nat n) (SortStableFunc scoreCmp (scores s))). split_all.
  - rewrite firstn_skipn. apply SortStableFunc_perm.
  - apply ForallOrdPairs_app_cross. rewrite firstn_skipn.
    apply IsSortedFunc_pairs; [apply Comparator_scoreCmp | ].
    apply SortStableFunc_sorted, Comparator_scoreCmp.
  - intros Hlen. apply skipn_all2. rewrite SortStableFunc_length. lia.
Qed.

Lemma truncate_drops_the_tail_witness :
  exists dropped,
    Permutation ([lowScore] ++ dropped) [highScore; lowScore]
    /\ (forall k d, In k [lowScore] -> In d dropped -> scoreCmp k d <= 0)
    /\ (Z.of_nat (length [highScore; lowScore]) <= 1 -> dropped = []).
Proof.
  apply (truncate_drops_the_tail 1 (set_scores demoServer [highScore; lowScore])
           (set_scores demoServer [lowScore]) [lowScore]).
  vm_compute. reflexivity.
Defined.

(** X4: truncating to [n] and then to [m] is truncating to the smaller
    of the two. *)
Theorem truncate_twice (n m : Z) (s s1 : HighScoreServer) (kept : list Score) :
  0 <= m ->
  truncateAndGetScores n s = Some (kept, s1) ->
  truncateAndGetScores m s1 = truncateAndGetScores (Z.min m n) s.
Proof.
  intros Hm H.
  destruct (truncateAndGetScores_sorted n s s1 kept H) as (Hs & _ & _).
  apply truncateAndGetScores_some in H. destruct H as (Hn & Hk & ->).
  rewrite (truncateAndGetScores_nonneg m _ Hm).
  rewrite (truncateAndGetScores_nonneg (Z.min m n) s) by lia.
  cbn [set_scores scores hmacKey adminPassword].
  rewrite (SortStableFunc_id scoreCmp kept Hs), Hk, firstn_firstn.
  rewrite Z2Nat.inj_min. reflexivity.
Qed.

Lemma truncate_twice_witness :
  truncateAndGetScores 1 (set_scores demoServer [lowScore; highScore])
  = truncateAndGetScores (Z.min 1 20) (set_scores demoServer [highScore; lowScore]).
Proof.
  apply (truncate_twice 20 1 (set_scores demoServer [highScore; lowScore])
           (set_scores demoServer [lowScore; highScore]) [lowScore; highScore]).
  - lia.
  - vm_compute. reflexivity.
Defined.

(** ** What [addScore] does *)

(** X5: [addScore] answers 201 or 400 and nothing else; it answers 201
    exactly when no step of the validation fails, and then it logs
    nothing and appends one score, the submitted one without its token,
    behind the scores already stored. *)
Theorem addScore_accepts_exactly (now : Z) (body : Decoded) (s : HighScoreServer) :
  (status (addScore now body s) = StatusCreated
   \/ status (addScore now body s) = StatusBadRequest)
  /\ (status (addScore now body s) = StatusCreated
      <-> ~ fails_validation now (hmacKey s) body)
  /\ (status (addScore now body s) = StatusCreated ->
      exists sc,
        body = DecodeOk sc
        /\ addScore now body s
           = mkReply StatusCreated [] (set_scores s (scores s ++ [stripped sc]))).
Proof.
  split_all.
  - destruct (addScore_reply s now body) as [[E _] | E]; auto.
  - apply created_unless_rejected.
  - intros H. apply addScore_created in H.
    destruct H as (sc & Hb & _ & _ & _ & _ & E). exists sc. auto.
Qed.

Lemma addScore_accepts_exactly_witness :
  exists sc,
    DecodeOk BBB = DecodeOk sc
    /\ addScore (demoStart + 60) (DecodeOk BBB) demoServer
       = mkReply StatusCreated []
           (set_scores demoServer (scores demoServer ++ [stripped sc])).
Proof.
  apply (proj2 (proj2 (addScore_accepts_exactly (demoStart + 60) (DecodeOk BBB) demoServer))).
  vm_compute. reflexivity.
Defined.

Lemma addScore_key (now : Z) (body : Decoded) (s : HighScoreServer) :
  hmacKey (server (addScore now body s)) = hmacKey s
  /\ adminPassword (server (addScore now body s)) = adminPassword s.
Proof.
  destruct (addScore_reply s now body) as [[_ E] | E].
  - rewrite E. auto.
  - apply addScore_created in E. destruct E as (sc & _ & _ & _ & _ & _ & ->).
    split; reflexivity.
Qed.

Lemma fails_validation_key (now : Z) (body : Decoded) (s s' : HighScoreServer) :
  hmacKey s' = hmacKey s ->
  fails_validation now (hmacKey s') body <-> fails_validation now (hmacKey s) body.
Proof. intros ->. reflexivity. Qed.

(** X6: whether a submission is accepted does not depend on the scores
    stored, so nothing stops a replay: a submission accepted once is
    accepted again at the same clock reading, and is then stored
    twice. *)
Theorem accepted_twice (now : Z) (body : Decoded) (s : HighScoreServer) :
  status (addScore now body s) = StatusCreated ->
  status (addScore now body (server (addScore now body s))) = StatusCreated
  /\ exists sc,
       body = DecodeOk sc
       /\ scores (server (addScore now body (server (addScore now body s))))
          = scores s ++ [stripped sc; stripped sc].
Proof.
  intros H.
  assert (H2 : status (addScore now body (server (addScore now body s))) = StatusCreated).
  { apply created_unless_rejected.
    rewrite (proj1 (addScore_key now body s)).
    apply created_unless_rejected, H. }
  split; [exact H2 | ].
  apply addScore_created in H2. destruct H2 as (sc & Hb & _ & _ & _ & _ & E2).
  apply addScore_created in H. destruct H as (sc' & Hb' & _ & _ & _ & _ & E1).
  exists sc. split; [exact Hb | ].
  rewrite E2. cbn [server set_scores scores]. rewrite E1. cbn [server set_scores scores].
  assert (sc' = sc) by congruence. subst sc'.
  rewrite <- app_assoc. reflexivity.
Qed.

Lemma accepted_twice_witness :
  status (addScore (demoStart + 60) (DecodeOk BBB)
            (server (addScore (demoStart + 60) (DecodeOk BBB) demoServer)))
  = StatusCreated.
Proof.
  apply (accepted_twice (demoStart + 60) (DecodeOk BBB) demoServer).
  vm_compute. reflexivity.
Defined.

(** ** What [resetScore] does *)

(** X7: [resetScore] answers 200 exactly when the form gives the
    password of the server; it then logs the clearing and leaves a store
    the next tick reads as empty.  With any other answer (400 for a
    form that does not parse, 403 for another password) it logs nothing
    and leaves the server as it was. *)
Theorem resetScore_behaviour (form : Form) (s : HighScoreServer) :
  (status (resetScore form s) = StatusOK <-> form = FormValue (adminPassword s))
  /\ (status (resetScore form s) = StatusOK ->
      scores (server (resetScore form s)) = []
      /\ logged (resetScore form s) = [ClearedScores]
      /\ option_map fst (streamTick (server (resetScore form s))) = Some [])
  /\ (status (resetScore form s) <> StatusOK ->
      server (resetScore form s) = s
      /\ logged (resetScore form s) = []
      /\ (form = FormError -> status (resetScore form s) = StatusBadRequest)
      /\ (form <> FormError -> status (resetScore form s) = StatusForbidden)).
Proof.
  destruct form as [ | pw]; cbn [resetScore].
  - cbn [status server logged]. split_all.
    + split; discriminate.
    + discriminate.
    + intros _. split_all; try reflexivity. intros H. contradiction.
  - destruct (String.eqb_spec pw (adminPassword s)) as [-> | Hne];
      cbn [status server logged].
    + split_all.
      * split; reflexivity.
      * intros _. split_all; reflexivity.
      * intros H. contradiction.
    + split_all.
      * split; [discriminate | ]. intros [= ->]. contradiction.
      * discriminate.
      * intros _. split_all; try reflexivity. discriminate.
Qed.

Lemma resetScore_behaviour_witness :
  scores (server (resetScore (FormValue "changeme") (set_scores demoServer [lowScore]))) = []
  /\ logged (resetScore (FormValue "changeme") (set_scores demoServer [lowScore]))
     = [ClearedScores]
  /\ option_map fst
       (streamTick (server (resetScore (FormValue "changeme")
                              (set_scores demoServer [lowScore]))))
     = Some [].
Proof.
  apply (proj1 (proj2 (resetScore_behaviour (FormValue "changeme")
                         (set_scores demoServer [lowScore])))).
  reflexivity.
Defined.

(** ** What every request keeps *)

Lemma step_key (s s' : HighScoreServer) (r : Request) :
  step s r = Some s' ->
  hmacKey s' = hmacKey s /\ adminPassword s' = adminPassword s.
Proof.
  destruct r as [now | now body | form | ]; cbn [step].
  - intros [= <-]. auto.
  - intros [= <-]. apply addScore_key.
  - intros [= <-]. destruct form as [ | pw]; cbn [resetScore server]; [auto | ].
    destruct (String.eqb pw (adminPassword s)); cbn [server]; auto.
  - unfold streamTick.
    destruct (truncateAndGetScores NUM_SCORES s) as [[kept s1] | ] eqn:E; [ | discriminate].
    intros [= <-]. apply truncateAndGetScores_some in E. destruct E as (_ & _ & ->).
    auto.
Qed.

Lemma run_key (rs : list Request) (s s' : HighScoreServer) :
  run s rs = Some s' ->
  hmacKey s' = hmacKey s /\ adminPassword s' = adminPassword s.
Proof.
  revert s. induction rs as [ | r rs IH]; intros s; cbn [run].
  - intros [= <-]. auto.
  - destruct (step s r) as [s1 | ] eqn:E; [ | discriminate].
    intros H. destruct (IH s1 H) as [Hk Hp]. destruct (step_key s s1 r E) as [Hk1 Hp1].
    split; congruence.
Qed.

(** X8: no request changes the key or the password, whatever the
    sequence of token requests, submissions, resets and stream ticks; so
    a token the server issued at any time verifies in every state the
    server reaches afterwards. *)
Theorem key_never_changes (rs : list Request) (s s' : HighScoreServer) :
  run s rs = Some s' ->
  hmacKey s' = hmacKey s
  /\ adminPassword s' = adminPassword s
  /\ (forall t, Verify (hmacKey s') (snd (getToken t s)) = true).
Proof.
  intros H. destruct (run_key rs s s' H) as [Hk Hp]. split_all; try assumption.
  intros t. rewrite Hk. apply Verify_true. cbn [getToken snd Hmac Start].
  unfold expectedMac. apply DecodeString_EncodeToString, HMAC_sum_bytes.
Qed.

Lemma key_never_changes_witness :
  hmacKey (set_scores demoServer []) = hmacKey demoServer.
Proof.
  apply (key_never_changes
           [PostRecord (demoStart + 60) (DecodeOk BBB); EventsTick;
            PostReset (FormValue "changeme")]
           demoServer (set_scores demoServer [])).
  vm_compute. reflexivity.
Defined.

Lemma step_well_formed (s s' : HighScoreServer) (r : Request) :
  Forall well_formed (scores s) -> step s r = Some s' -> Forall well_formed (scores s').
Proof.
  intros H. destruct r as [now | now body | form | ]; cbn [step].
  - intros [= <-]. exact H.
  - intros [= <-]. destruct (addScore_reply s now body) as [[_ E] | E].
    + rewrite E. exact H.
    + apply addScore_created in E.
      destruct E as (sc & _ & _ & Hh & Hn & _ & ->).
      cbn [server set_scores scores]. apply Forall_app. split; [exact H | ].
      constructor; [ | constructor]. split; assumption.
  - intros [= <-]. destruct form as [ | pw]; cbn [resetScore server]; [exact H | ].
    destruct (String.eqb pw (adminPassword s)); cbn [server set_scores scores];
      [constructor | exact H].
  - unfold streamTick.
    destruct (truncateAndGetScores NUM_SCORES s) as [[kept s1] | ] eqn:E; [ | discriminate].
    intros [= <-]. apply truncateAndGetScores_some in E. destruct E as (_ & -> & ->).
    cbn [set_scores scores]. apply Forall_prefix.
    apply (Permutation_Forall (Permutation_sym (SortStableFunc_perm scoreCmp (scores s)))).
    exact H.
Qed.

(** X9: every score the server ever holds passed the checks of
    [addScore]: in every state reached from the start its health is not
    negative and its name has 1 to 3 bytes. *)
Theorem stored_scores_well_formed
        (key : list Z) (pw : string) (rs : list Request) (s : HighScoreServer) :
  run (initialServer key pw) rs = Some s ->
  Forall (fun sc => 0 <= RemainingHealth sc /\ 1 <= len (PlayerName sc) <= 3) (scores s).
Proof.
  change (run (initialServer key pw) rs = Some s -> Forall well_formed (scores s)).
  assert (G : forall rs s0 s1,
             Forall well_formed (scores s0) -> run s0 rs = Some s1 ->
             Forall well_formed (scores s1)).
  { clear. induction rs as [ | r rs IH]; intros s0 s1 H; cbn [run].
    - intros [= <-]. exact H.
    - destruct (step s0 r) as [s2 | ] eqn:E; [ | discriminate].
      apply IH. apply (step_well_formed s0 s2 r H E). }
  apply G. constructor.
Qed.

Lemma stored_scores_well_formed_witness :
  Forall (fun sc => 0 <= RemainingHealth sc /\ 1 <= len (PlayerName sc) <= 3)
         (scores (set_scores demoServer [stripped BBB])).
Proof.
  apply (stored_scores_well_formed demoKey "changeme"%string
           [PostRecord (demoStart + 60) (DecodeOk BBB);
            PostRecord (demoStart + 60)
              (DecodeOk (mkScore "AAA" (float64_of_int 0) (-1) demoToken));
            EventsTick]
           (set_scores demoServer [stripped BBB])).
  vm_compute. reflexivity.
Defined.

Lemma step_total (s : HighScoreServer) (r : Request) :
  exists s',
    step s r = Some s'
    /\ (length (scores s') <= S (length (scores s)))%nat
    /\ (r = EventsTick -> Z.of_nat (length (scores s')) <= NUM_SCORES).
Proof.
  destruct r as [now | now body | form | ]; cbn [step].
  - exists s. split_all; [reflexivity | lia | discriminate].
  - eexists. split_all; [reflexivity | | discriminate].
    destruct (addScore_reply s now body) as [[_ E] | E].
    + rewrite E. lia.
    + apply addScore_created in E. destruct E as (sc & _ & _ & _ & _ & _ & ->).
      cbn [server set_scores scores]. rewrite length_app. cbn [length]. lia.
  - eexists. split_all; [reflexivity | | discriminate].
    destruct form as [ | pw]; cbn [resetScore server]; [lia | ].
    destruct (String.eqb pw (adminPassword s)); cbn [server set_scores scores length]; lia.
  - unfold streamTick.
    rewrite truncateAndGetScores_nonneg by (unfold NUM_SCORES; lia).
    eexists. split_all; [reflexivity | | intros _];
      cbn [set_scores scores]; rewrite length_firstn, SortStableFunc_length;
      unfold NUM_SCORES; lia.
Qed.

(** X10: no sequence of requests makes a handler panic; a request adds
    at most one score, and the stream tick that follows returns and
    leaves at most [NUM_SCORES] scores. *)
Theorem requests_never_panic (rs : list Request) (s : HighScoreServer) :
  exists s' s2,
    run s rs = Some s'
    /\ (length (scores s') <= length (scores s) + length rs)%nat
    /\ step s' EventsTick = Some s2
    /\ Z.of_nat (length (scores s2)) <= NUM_SCORES.
Proof.
  revert s. induction rs as [ | r rs IH]; intros s; cbn [run].
  - destruct (step_total s EventsTick) as (s2 & E & _ & Hb).
    exists s, s2. split_all; [reflexivity | lia | exact E | apply Hb; reflexivity].
  - destruct (step_total s r) as (s1 & E & Hlen & _). rewrite E.
    destruct (IH s1) as (s' & s2 & Hrun & Hl & Ht & Hb).
    exists s', s2. split_all; [exact Hrun | cbn [length]; lia | exact Ht | exact Hb].
Qed.

(** ** The message the token signs *)

Lemma byte_at (v i : Z) :
  0 <= i -> Z.land (Z.shiftr v (8 * i)) 255 = (v / 2 ^ (8 * i)) mod 256.
Proof. intros Hi. rewrite land_255, Z.shiftr_div_pow2 by lia. reflexivity. Qed.

Lemma div_step (k x y : Z) :
  0 <= k ->
  (x / 2 ^ k) mod 256 = (y / 2 ^ k) mod 256 ->
  x / 2 ^ (k + 8) = y / 2 ^ (k + 8) ->
  x / 2 ^ k = y / 2 ^ k.
Proof.
  intros Hk Hm Hd.
  rewrite !Z.pow_add_r, <- !Z.div_div in Hd by lia.
  change (2 ^ 8) with 256 in Hd.
  rewrite (Z.div_mod (x / 2 ^ k) 256), (Z.div_mod (y / 2 ^ k) 256) by lia.
  rewrite Hm, Hd. reflexivity.
Qed.

(** X11: the eight bytes signed determine the start time: two [int64]
    start times with the same little-endian encoding are the same, so no
    two start times share a signature by sharing a message. *)
Theorem PutUint64_injective (a b : Z) :
  int64_ok a -> int64_ok b ->
  PutUint64 (uint64 a) = PutUint64 (uint64 b) -> a = b.
Proof.
  unfold int64_ok, uint64, PutUint64. intros Ha Hb H.
  cbn [map] in H.
  rewrite !byte_at in H by lia.
  assert (HA : 0 <= a mod 2 ^ 64 < 2 ^ 64) by (apply Z.mod_pos_bound; lia).
  assert (HB : 0 <= b mod 2 ^ 64 < 2 ^ 64) by (apply Z.mod_pos_bound; lia).
  assert (E : a mod 2 ^ 64 = b mod 2 ^ 64).
  { revert H HA HB. generalize (a mod 2 ^ 64) (b mod 2 ^ 64). intros x y H Hx Hy.
    injection H as H0 H1 H2 H3 H4 H5 H6 H7.
    assert (E64 : x / 2 ^ (56 + 8) = y / 2 ^ (56 + 8))
      by (rewrite !Z.div_small by assumption; reflexivity).
    pose proof (div_step 56 x y ltac:(lia) H7 E64) as E56.
    pose proof (div_step 48 x y ltac:(lia) H6 E56) as E48.
    pose proof (div_step 40 x y ltac:(lia) H5 E48) as E40.
    pose proof (div_step 32 x y ltac:(lia) H4 E40) as E32.
    pose proof (div_step 24 x y ltac:(lia) H3 E32) as E24.
    pose proof (div_step 16 x y ltac:(lia) H2 E24) as E16.
    pose proof (div_step 8 x y ltac:(lia) H1 E16) as E8.
    pose proof (div_step 0 x y ltac:(lia) H0 E8) as E0.
    rewrite !Z.div_1_r in E0. exact E0. }
  clear H.
  assert (Ea : a mod 2 ^ 64 = a \/ a mod 2 ^ 64 = a + 2 ^ 64).
  { destruct (Z.lt_ge_cases a 0).
    - right. symmetry. apply (Z.mod_unique _ _ (-1)); lia.
    - left. apply Z.mod_small. lia. }
  assert (Eb : b mod 2 ^ 64 = b \/ b mod 2 ^ 64 = b + 2 ^ 64).
  { destruct (Z.lt_ge_cases b 0).
    - right. symmetry. apply (Z.mod_unique _ _ (-1)); lia.
    - left. apply Z.mod_small. lia. }
  lia.
Qed.

Lemma PutUint64_injective_witness : demoStart = 1700000000.
Proof.
  apply (PutUint64_injective demoStart 1700000000);
    [unfold int64_ok, demoStart; lia | unfold int64_ok; lia | reflexivity].
Defined.

(** ** The age of a token *)

Lemma binary_round_aux_sign (sx : bool) (mx ex : Z) (lx : location) :
  match binary_round_aux prec64 emax64 sx mx ex lx with
  | S754_zero s | S754_infinity s | S754_finite s _ _ => s = sx
  | S754_nan => True
  end.
Proof.
  unfold binary_round_aux.
  destruct (shr_fexp prec64 emax64 mx ex lx) as [mrs' e'].
  destruct (shr_fexp prec64 emax64
              (round_nearest_even (shr_m mrs') (loc_of_shr_record mrs')) e' loc_Exact)
    as [mrs'' e''].
  destruct (shr_m mrs''); [reflexivity | | exact I].
  destruct (e'' <=? emax64 - prec64); reflexivity.
Qed.

(** The conversion of an integer that is not negative is not negative. *)
Lemma float64_of_int_not_negative (d : Z) : 0 <= d -> not_negative (float64_of_int d).
Proof.
  intros Hd. unfold float64_of_int, binary_normalize.
  destruct d as [ | m | m]; [exact I | | lia].
  unfold binary_round.
  destruct (shl_align m 0 (fexp prec64 emax64 (Z.pos (digits2_pos m) + 0))) as [mz ez].
  pose proof (binary_round_aux_sign false (Z.pos mz) ez loc_Exact) as H.
  destruct (binary_round_aux prec64 emax64 false (Z.pos mz) ez loc_Exact);
    cbn [not_negative]; try exact I; subst; exact I.
Qed.

Lemma not_negative_not_below (w e : float64) :
  not_negative w -> float_lt (float64_of_int 0) e = false -> float_lt w e = false.
Proof.
  unfold float_lt, SFltb.
  destruct w as [[ | ] | [ | ] | | [ | ] m1 e1]; cbn [not_negative]; try contradiction;
    intros _; destruct e as [[ | ] | [ | ] | | [ | ] m2 e2]; cbn; congruence.
Qed.

(** X12: a token does not expire.  With a token that verifies, issued
    at or before the clock reading of the submission, a submission that
    passes the health and name checks and claims no elapsed time above
    zero is accepted, however old the token is. *)
Theorem token_never_expires (now : Z) (sc : Score) (s : HighScoreServer) :
  Verify (hmacKey s) (Token_ sc) = true ->
  0 <= now - Start (Token_ sc) < 2 ^ 63 ->
  0 <= RemainingHealth sc ->
  1 <= len (PlayerName sc) <= 3 ->
  float_lt (float64_of_int 0) (Elapsed sc) = false ->
  wallClockElapsed now (Start (Token_ sc)) = float64_of_int (now - Start (Token_ sc))
  /\ status (addScore now (DecodeOk sc) s) = StatusCreated.
Proof.
  intros V Hage Hh Hn He.
  assert (Hw : wallClockElapsed now (Start (Token_ sc))
               = float64_of_int (now - Start (Token_ sc))).
  { apply wallClockElapsed_exact. unfold int64_ok. lia. }
  split; [exact Hw | ].
  rewrite (addScore_accepts now sc s V Hh Hn); [reflexivity | ].
  rewrite Hw. apply not_negative_not_below; [ | exact He].
  apply float64_of_int_not_negative. lia.
Qed.

Lemma token_never_expires_witness :
  status (addScore (demoStart + 1000000000)
            (DecodeOk (mkScore "AAA" (float64_of_int 0) 50 demoToken)) demoServer)
  = StatusCreated.
Proof.
  apply (token_never_expires (demoStart + 1000000000)
           (mkScore "AAA" (float64_of_int 0) 50 demoToken) demoServer).
  - vm_compute. reflexivity.
  - vm_compute. split; [discriminate | reflexivity].
  - vm_compute. discriminate.
  - vm_compute. split; discriminate.
  - vm_compute. reflexivity.
Defined.

(** X13: from issue to store.  A token issued by [getToken] at [t0], sent
    back after any sequence of requests at a clock reading not before
    [t0], with a name of 1 to 3 bytes, a health that is not negative and
    elapsed zero, is accepted, and the score is stored last. *)
Theorem issued_token_is_accepted
        (rs : list Request) (s s' : HighScoreServer) (t0 now health : Z) (name : string) :
  run s rs = Some s' ->
  0 <= now - t0 < 2 ^ 63 ->
  0 <= health ->
  1 <= len name <= 3 ->
  addScore now (DecodeOk (mkScore name (float64_of_int 0) health (snd (getToken t0 s)))) s'
  = mkReply StatusCreated []
      (set_scores s' (scores s' ++ [mkScore name (float64_of_int 0) health zeroToken])).
Proof.
  intros Hrun Hage Hh Hn.
  destruct (run_key rs s s' Hrun) as [Hk _].
  rewrite addScore_accepts; try assumption.
  - reflexivity.
  - rewrite Hk. apply Verify_true. cbn [Token_ getToken snd Hmac Start].
    unfold expectedMac. apply DecodeString_EncodeToString, HMAC_sum_bytes.
  - cbn [Token_ Elapsed getToken snd Start].
    rewrite wallClockElapsed_exact by (unfold int64_ok; lia).
    apply not_negative_not_below; [ | reflexivity].
    apply float64_of_int_not_negative. lia.
Qed.

Lemma issued_token_is_accepted_witness :
  addScore (demoStart + 7)
    (DecodeOk (mkScore "AAA" (float64_of_int 0) 50 (snd (getToken demoStart demoServer))))
    (set_scores demoServer [stripped BBB])
  = mkReply StatusCreated []
      (set_scores (set_scores demoServer [stripped BBB])
         (scores (set_scores demoServer [stripped BBB])
          ++ [mkScore "AAA" (float64_of_int 0) 50 zeroToken])).
Proof.
  apply (issued_token_is_accepted
           [PostRecord (demoStart + 60) (DecodeOk BBB); EventsTick]
           demoServer (set_scores demoServer [stripped BBB]) demoStart (demoStart + 7)
           50 "AAA").
  - vm_compute. reflexivity.
  - vm_compute. split; [discriminate | reflexivity].
  - lia.
  - vm_compute. split; discriminate.
Defined.

(** ** Names in ASCII *)

(** X14: for a name of ASCII bytes the length compared is the number of
    characters: an otherwise valid submission with such a name is
    accepted exactly when the name has 1 to 3 characters. *)
Theorem ascii_name_rule (now : Z) (sc : Score) (s : HighScoreServer) :
  ascii_only (PlayerName sc) ->
  Verify (hmacKey s) (Token_ sc) = true ->
  0 <= RemainingHealth sc ->
  float_lt (wallClockElapsed now (Start (Token_ sc))) (Elapsed sc) = false ->
  len (PlayerName sc) = Z.of_nat (utf8.RuneCountInString (PlayerName sc))
  /\ (status (addScore now (DecodeOk sc) s) = StatusCreated
      <-> (1 <= utf8.RuneCountInString (PlayerName sc) <= 3)%nat).
Proof.
  intros Ha V Hh Ht.
  assert (E : len (PlayerName sc) = Z.of_nat (utf8.RuneCountInString (PlayerName sc))).
  { unfold len, utf8.RuneCountInString.
    rewrite (RuneCount_ascii _ Ha), bytes_of_string_length. reflexivity. }
  split; [exact E | split].
  - intros H. apply addScore_created in H.
    destruct H as (sc' & [= <-] & _ & _ & Hn & _). lia.
  - intros Hn. rewrite (addScore_accepts now sc s V Hh); [reflexivity | lia | exact Ht].
Qed.

Lemma ascii_name_rule_witness :
  status (addScore (demoStart + 60) (DecodeOk BBB) demoServer) = StatusCreated
  <-> (1 <= utf8.RuneCountInString (PlayerName BBB) <= 3)%nat.
Proof.
  apply (ascii_name_rule (demoStart + 60) BBB demoServer).
  - unfold ascii_only. cbn. repeat constructor.
  - vm_compute. reflexivity.
  - vm_compute. discriminate.
  - vm_compute. reflexivity.
Defined.

(** ** The stream *)

Lemma truncate_fixed (n : Z) (s s1 : HighScoreServer) (kept : list Score) :
  truncateAndGetScores n s = Some (kept, s1) ->
  truncateAndGetScores n s1 = Some (kept, s1).
Proof.
  intros H.
  destruct (truncateAndGetScores_sorted n s s1 kept H) as (Hs & _ & Hlen).
  apply truncateAndGetScores_some in H. destruct H as (Hn & Hk & ->).
  rewrite (truncateAndGetScores_nonneg n _ Hn).
  cbn [set_scores scores hmacKey adminPassword].
  rewrite (SortStableFunc_id scoreCmp kept Hs), firstn_all2 by lia. reflexivity.
Qed.

Lemma streamLoop_fixed (events : list StreamEvent) (s : HighScoreServer)
      (kept : list Score) (frames : list (list Score)) :
  truncateAndGetScores NUM_SCORES s = Some (kept, s) ->
  exists j,
    (j <= length events)%nat
    /\ streamLoop events s frames = Some (frames ++ repeat kept j, s).
Proof.
  intros Hfix. revert frames.
  induction events as [ | ev events IH]; intros frames.
  - exists O. split; [apply le_n | ]. cbn. rewrite app_nil_r. reflexivity.
  - destruct ev as [ | write_ok].
    + exists O. split; [apply Nat.le_0_l | ]. cbn. rewrite app_nil_r. reflexivity.
    + cbn [streamLoop]. rewrite Hfix.
      destruct (forallb marshals kept); cbn [negb].
      * destruct write_ok; cbn [negb].
        -- destruct (IH (frames ++ [kept])) as (j & Hj & E).
           exists (S j). split; [cbn [length]; lia | ].
           rewrite E, <- app_assoc. reflexivity.
        -- exists O. split; [apply Nat.le_0_l | ]. cbn [repeat].
           rewrite app_nil_r. reflexivity.
      * exists O. split; [apply Nat.le_0_l | ]. cbn [repeat].
        rewrite app_nil_r. reflexivity.
Qed.

(** X15: a subscriber whose connection cannot flush gets 400 and
    changes nothing.  Any other run of [stream] returns without a panic
    whatever it meets; with no request in between, every frame it writes
    is the same list, the first [NUM_SCORES] scores of the sorted store,
    one frame at most for each ticker event, and the store it leaves is
    the one it found or the one its first tick left. *)
Theorem stream_frames (events : list StreamEvent) (s : HighScoreServer) :
  stream false events s = Some (Some StatusBadRequest, [], s)
  /\ exists j s',
       stream true events s
       = Some (None,
               repeat (firstn (Z.to_nat NUM_SCORES) (SortStableFunc scoreCmp (scores s))) j,
               s')
       /\ (j <= length events)%nat
       /\ (s' = s
           \/ s' = set_scores s (firstn (Z.to_nat NUM_SCORES)
                                        (SortStableFunc scoreCmp (scores s)))).
Proof.
  split; [reflexivity | ]. unfold stream. cbn [negb].
  destruct events as [ | [ | write_ok] events].
  - exists O, s. split_all; [reflexivity | apply le_n | left; reflexivity].
  - exists O, s. split_all; [reflexivity | apply Nat.le_0_l | left; reflexivity].
  - cbn [streamLoop].
    assert (Hn : 0 <= NUM_SCORES) by (unfold NUM_SCORES; lia).
    pose proof (truncateAndGetScores_nonneg NUM_SCORES s Hn) as E. rewrite E.
    set (kept := firstn (Z.to_nat NUM_SCORES) (SortStableFunc scoreCmp (scores s))) in *.
    destruct (forallb marshals kept); cbn [negb].
    + destruct write_ok; cbn [negb].
      * destruct (streamLoop_fixed events (set_scores s kept) kept ([] ++ [kept])
                    (truncate_fixed NUM_SCORES s _ kept E)) as (j & Hj & ->).
        exists (S j), (set_scores s kept).
        split_all; [reflexivity | cbn [length]; lia | right; reflexivity].
      * exists O, (set_scores s kept).
        split_all; [reflexivity | apply Nat.le_0_l | right; reflexivity].
    + exists O, (set_scores s kept).
      split_all; [reflexivity | apply Nat.le_0_l | right; reflexivity].
Qed.

(** ** The libraries the handlers lean on *)

Lemma EncodeToString_length_upto (n : nat) (src : list Z) :
  (length src <= n)%nat ->
  String.length (Base64.EncodeToString src) = (4 * ((length src + 2) / 3))%nat.
Proof.
  revert src. induction n as [ | n IH]; intros src Hn.
  - destruct src; [reflexivity | simpl in Hn; lia].
  - destruct src as [ | b0 [ | b1 [ | b2 r]]]; try reflexivity.
    cbn [Base64.EncodeToString String.length length].
    rewrite IH by (cbn [length] in Hn; lia).
    replace (S (S (S (length r))) + 2)%nat with (length r + 2 + 1 * 3)%nat by lia.
    rewrite Nat.div_add by lia. lia.
Qed.

(** X16: base64 as [getToken] writes it and [addScore] reads it:
    [DecodeString] gives back every byte string [EncodeToString] was
    given, and the encoding of [n] bytes has 4 characters for every 3
    bytes or part of 3. *)
Theorem base64_round_trip (src : list Z) :
  bytes_ok src ->
  Base64.DecodeString (Base64.EncodeToString src) = Some src
  /\ String.length (Base64.EncodeToString src) = (4 * ((length src + 2) / 3))%nat.
Proof.
  intros H. split; [apply DecodeString_EncodeToString, H | ].
  apply (EncodeToString_length_upto (length src)). apply le_n.
Qed.

Lemma base64_round_trip_witness :
  Base64.DecodeString (Base64.EncodeToString [77; 97]) = Some [77; 97]
  /\ String.length (Base64.EncodeToString [77; 97]) = (4 * ((length [77; 97] + 2) / 3))%nat.
Proof.
  apply (base64_round_trip [77; 97]).
  repeat constructor; unfold byte_ok; lia.
Defined.

(** X17: [hmac.Equal] holds of two byte slices exactly when they are
    the same slice, lengths included; its one-pass fold of xors misses
    no difference. *)
Theorem hmac_Equal_decides (mac1 mac2 : list Z) :
  (hmac_Equal mac1 mac2 = true <-> mac1 = mac2)
  /\ (length mac1 <> length mac2 -> hmac_Equal mac1 mac2 = false).
Proof.
  split; [apply hmac_Equal_true | ].
  intros Hlen. apply hmac_Equal_false. intros ->. contradiction.
Qed.

Lemma hmac_Equal_decides_witness : hmac_Equal [1; 2] [1; 2; 3] = false.
Proof.
  apply (proj2 (hmac_Equal_decides [1; 2] [1; 2; 3])). cbn. discriminate.
Defined.

(** ** The shape of a token *)








(** ** The order of what a tick returns *)

(** X19: in the sequence [truncateAndGetScores] returns, an earlier
    score never has more health than a later one, and of two scores of
    equal health with elapsed times that are numbers the earlier never
    has the smaller elapsed time; the sequence has at most [n] scores,
    all of them from the store. *)
Theorem truncate_order (n : Z) (s s1 : HighScoreServer) (kept : list Score) :
  truncateAndGetScores n s = Some (kept, s1) ->
  ForallOrdPairs
    (fun a b =>
       RemainingHealth a <= RemainingHealth b
       /\ (RemainingHealth a = RemainingHealth b ->
           isNaN (Elapsed a) = false -> isNaN (Elapsed b) = false ->
           float_lt (Elapsed a) (Elapsed b) = false))
    kept
  /\ Z.of_nat (length kept) <= n
  /\ incl kept (scores s).
Proof.
  intros H.
  destruct (truncateAndGetScores_sorted n s s1 kept H) as (_ & Hp & Hlen).
  split_all; [ | exact Hlen | ].
  - clear H Hlen. induction Hp as [ | a l Ha Hl IH]; constructor; [ | exact IH].
    apply Forall_forall. intros b Hb. rewrite Forall_forall in Ha.
    specialize (Ha b Hb). apply scoreCmp_le in Ha.
    destruct Ha as [Hlt | [Heq Hc]]; [split; [lia | intros; lia] | ].
    split; [lia | ]. intros _ Na Nb.
    unfold Compare_float64 in Hc. rewrite Na, Nb in Hc.
    destruct (float_lt (Elapsed a) (Elapsed b)); [lia | reflexivity].
  - apply truncateAndGetScores_some in H. destruct H as (_ & -> & _).
    intros x Hx.
    apply (Permutation_in x (SortStableFunc_perm scoreCmp (scores s))).
    rewrite <- (firstn_skipn (Z.to_nat n)). apply in_or_app. left. exact Hx.
Qed.

Lemma truncate_order_witness :
  Z.of_nat (length [lowScore]) <= 1.
Proof.
  apply (truncate_order 1 (set_scores demoServer [highScore; lowScore])
           (set_scores demoServer [lowScore]) [lowScore]).
  vm_compute. reflexivity.
Defined.

(** ** The log of [addScore] *)

(** X20: [addScore] writes to the log exactly when the token verifies,
    the health and name checks pass and the claimed elapsed time is
    above the wall-clock time; the line then carries both times, and the
    answer is 400. *)
Theorem addScore_logs_exactly (now : Z) (sc : Score) (s : HighScoreServer) :
  (logged (addScore now (DecodeOk sc) s) <> []
   <-> Verify (hmacKey s) (Token_ sc) = true
       /\ 0 <= RemainingHealth sc
       /\ 1 <= len (PlayerName sc) <= 3
       /\ float_lt (wallClockElapsed now (Start (Token_ sc))) (Elapsed sc) = true)
  /\ (logged (addScore now (DecodeOk sc) s) <> [] ->
      logged (addScore now (DecodeOk sc) s)
      = [OddElapsed (Elapsed sc) (wallClockElapsed now (Start (Token_ sc)))]
      /\ status (addScore now (DecodeOk sc) s) = StatusBadRequest).
Proof.
  destruct (Verify (hmacKey s) (Token_ sc)) eqn:V.
  - rewrite (addScore_verified s now sc V). cbv zeta.
    destruct (Z.ltb_spec (RemainingHealth sc) 0); cbn [logged status].
    { split; [split; [congruence | intros (_ & ? & ? & _); lia] | congruence]. }
    destruct (Z.ltb_spec (len (PlayerName sc)) 1); cbn [orb logged status].
    { split; [split; [congruence | intros (_ & ? & ? & _); lia] | congruence]. }
    destruct (Z.ltb_spec 3 (len (PlayerName sc))); cbn [orb logged status].
    { split; [split; [congruence | intros (_ & ? & ? & _); lia] | congruence]. }
    destruct (float_lt (wallClockElapsed now (Start (Token_ sc))) (Elapsed sc));
      cbn [logged status].
    + split; [split; [intros _; split_all; try reflexivity; lia | discriminate] | ].
      intros _. split; reflexivity.
    + split; [split; [congruence | ] | congruence].
      intros (_ & _ & _ & Hf). discriminate.
  - rewrite (addScore_unverified s now sc V). cbn [logged status].
    split; [split; [congruence | ] | congruence].
    intros (Hf & _). discriminate.
Qed.

Lemma addScore_logs_exactly_witness :
  logged (addScore (demoStart + 5) (DecodeOk BBB) demoServer)
  = [OddElapsed (Elapsed BBB) (wallClockElapsed (demoStart + 5) (Start (Token_ BBB)))]
  /\ status (addScore (demoStart + 5) (DecodeOk BBB) demoServer) = StatusBadRequest.
Proof.
  apply (proj2 (addScore_logs_exactly (demoStart + 5) BBB demoServer)).
  vm_compute. discriminate.
Defined.

(** ** Sorting and ticks *)

(** X21: what a tick returns does not depend on how the library sorts:
    any rearrangement of the store that is sorted by [scoreCmp] and
    keeps the scores that compare equal in their order is the one
    [SortStableFunc] gives. *)
Theorem stable_sort_of_scores_unique (l sorted : list Score) :
  IsSortedFunc scoreCmp sorted = true ->
  (forall x, filter (fun y => scoreCmp x y =? 0) sorted
             = filter (fun y => scoreCmp x y =? 0) l) ->
  sorted = SortStableFunc scoreCmp l.
Proof. apply SortStableFunc_unique, Comparator_scoreCmp. Qed.

Lemma stable_sort_of_scores_unique_witness :
  [lowScore; highScore] = SortStableFunc scoreCmp [lowScore; highScore].
Proof.
  apply (stable_sort_of_scores_unique [lowScore; highScore] [lowScore; highScore]).
  - vm_compute. reflexivity.
  - intros x. reflexivity.
Defined.

Lemma sort_after_sort (l : list Score) (x : Score) :
  SortStableFunc scoreCmp (SortStableFunc scoreCmp l ++ [x])
  = SortStableFunc scoreCmp (l ++ [x]).
Proof.
  symmetry. apply SortStableFunc_unique.
  - apply Comparator_scoreCmp.
  - apply SortStableFunc_sorted, Comparator_scoreCmp.
  - intros y.
    rewrite (SortStableFunc_stable scoreCmp Comparator_scoreCmp y (l ++ [x])).
    rewrite !filter_app.
    rewrite (SortStableFunc_stable scoreCmp Comparator_scoreCmp y l). reflexivity.
Qed.

(** X22: while the store fits in [n], a tick changes nothing a later
    tick can show: a submission handled after a tick, then ranked, gives
    the very result and server that the submission handled without that
    tick, then ranked, gives. *)
Theorem tick_is_transparent
        (n now : Z) (body : Decoded) (s s1 : HighScoreServer) (kept : list Score) :
  Z.of_nat (length (scores s)) <= n ->
  truncateAndGetScores n s = Some (kept, s1) ->
  truncateAndGetScores n (server (addScore now body s1))
  = truncateAndGetScores n (server (addScore now body s)).
Proof.
  intros Hlen H. pose proof (truncate_fixed n s s1 kept H) as Hfix.
  pose proof H as H'. apply truncateAndGetScores_some in H'.
  destruct H' as (Hn & Hk & Hs1).
  assert (Ek : kept = SortStableFunc scoreCmp (scores s)).
  { rewrite Hk. apply firstn_all2. rewrite SortStableFunc_length. lia. }
  destruct (addScore_reply s now body) as [[Hst E] | Hc].
  - assert (Hst1 : status (addScore now body s1) <> StatusCreated).
    { intros C. apply created_unless_rejected in C.
      assert (Hkey : hmacKey s1 = hmacKey s) by (rewrite Hs1; reflexivity).
      rewrite Hkey in C. apply created_unless_rejected in C.
      rewrite Hst in C. discriminate. }
    destruct (addScore_reply s1 now body) as [[_ E1] | C]; [ | contradiction].
    rewrite E, E1, Hfix, H. reflexivity.
  - assert (Hc1 : status (addScore now body s1) = StatusCreated).
    { apply created_unless_rejected.
      assert (Hkey : hmacKey s1 = hmacKey s) by (rewrite Hs1; reflexivity).
      rewrite Hkey. apply created_unless_rejected, Hc. }
    apply addScore_created in Hc. destruct Hc as (sc & Hb & _ & _ & _ & _ & E).
    apply addScore_created in Hc1. destruct Hc1 as (sc1 & Hb1 & _ & _ & _ & _ & E1).
    assert (sc1 = sc) by congruence. subst sc1.
    rewrite E, E1. cbn [server].
    rewrite !truncateAndGetScores_nonneg by exact Hn.
    rewrite Hs1. cbn [set_scores scores hmacKey adminPassword].
    rewrite Ek, sort_after_sort. reflexivity.
Qed.

Lemma tick_is_transparent_witness :
  truncateAndGetScores 20
    (server (addScore (demoStart + 60) (DecodeOk BBB)
               (set_scores demoServer [lowScore; highScore])))
  = truncateAndGetScores 20
      (server (addScore (demoStart + 60) (DecodeOk BBB)
                 (set_scores demoServer [highScore; lowScore]))).
Proof.
  apply (tick_is_transparent 20 (demoStart + 60) (DecodeOk BBB)
           (set_scores demoServer [highScore; lowScore])
           (set_scores demoServer [lowScore; highScore]) [lowScore; highScore]).
  - vm_compute. discriminate.
  - vm_compute. reflexivity.
Defined.
